(** * Atomizer: the text/code segmentation engine of anchor-os

    Shallow embedding of
    [packages/anchor-engine/packages/native-atomizer/src/atomizer.cpp]
    ([Atomizer::Atomize], [Atomizer::SplitCode], [Atomizer::SplitProse])
    and of its N-API entry point ([binding.cpp], [AtomizeWrapped]), and the
    properties of the chunking.

    Conventions.
    - A [std::string] is a [list ascii] (a byte buffer); the strategy label
      is a [string].
    - [size_t] values are in [N].  The two products [maxChunkSize * 2] and
      [maxChunkSize * 3] are the only [size_t] operations of the file that
      can exceed [2^64 - 1]; they are reduced modulo [2^64] ([wrap_size]).
      Every other [size_t] expression is an offset or a length inside the
      buffer (the loop rules [code_loop_inv] and [prose_loop_inv] keep
      [last_split <= i < len] at every iteration, and the backward scan
      stays above [last_split]), so it is written with the plain operations
      of [N].
    - [int depth] is in [Z], with the two's complement wrap-around of a
      32-bit [int] written out ([wrap_int]).  An overflow of a signed [int]
      is undefined behaviour in C++: the theorems about the counter are
      stated for the inputs on which [depth++] cannot overflow.
    - [Napi::String::New], which makes a JavaScript string of the bytes of
      a chunk, belongs to N-API and not to the repository: the binding is
      modelled for an arbitrary conversion [String_New].
    - [std::string::substr] throws [std::out_of_range] when the position
      is past the end: it is fallible, and so is everything that calls it. *)

From Stdlib Require Import Ascii String NArith ZArith Bool Lia List.
Import ListNotations.

(** ** C++ primitives *)

Module Cpp.

Inductive exn : Type :=
| out_of_range   (* std::out_of_range, from substr *)
| TypeError.     (* the JavaScript TypeError thrown by the binding *)

(** The result of running a piece of code: a value, a C++ exception, or
    [Timeout] when a loop of the model was given too little fuel (never
    the case for the entry points, see [Atomize_returns]). *)
Inductive outcome (A : Type) : Type :=
| Ok (a : A)
| Throw (e : exn)
| Timeout.

Arguments Ok {A} a.
Arguments Throw {A} e.
Arguments Timeout {A}.

Definition bind {A B} (c : outcome A) (k : A -> outcome B) : outcome B :=
  match c with
  | Ok a => k a
  | Throw e => Throw e
  | Timeout => Timeout
  end.

Definition fmap {A B} (f : A -> B) (c : outcome A) : outcome B :=
  bind c (fun a => Ok (f a)).

Definition wrap_size (n : N) : N := (n mod 2 ^ 64)%N.

Definition INT_MAX : Z := 2147483647.

Definition wrap_int (z : Z) : Z := ((z + 2 ^ 31) mod 2 ^ 32 - 2 ^ 31)%Z.

Definition newline : ascii := "010"%char.

Definition size (content : list ascii) : N := N.of_nat (length content).

(** [content[i]]; only used at [i < size content]. *)
Definition at_ (content : list ascii) (i : N) : ascii :=
  nth (N.to_nat i) content zero.

(** [content.substr(pos, count)] *)
Definition substr (content : list ascii) (pos count : N)
  : outcome (list ascii) :=
  if (size content <? pos)%N then Throw out_of_range
  else Ok (firstn (N.to_nat count) (skipn (N.to_nat pos) content)).

(** [content.substr(pos)] *)
Definition substr_from (content : list ascii) (pos : N)
  : outcome (list ascii) :=
  if (size content <? pos)%N then Throw out_of_range
  else Ok (skipn (N.to_nat pos) content).

End Cpp.

Import Cpp.

Notation "x <- c ;; k" := (bind c (fun x => k))
  (at level 61, c at next level, right associativity).

(** ** Atoms

    The source pushes plain strings onto [atoms].  The model pushes the
    same string together with three ghost fields saying which
    [emplace_back] produced it and where; [texts] erases them, and only
    [texts] is returned by the entry points. *)

Inductive cause : Type :=
| Soft (depth : Z)   (* SplitCode, line 42; [depth] is the counter's value *)
| HardNewline        (* SplitCode, line 54: newline found by the backward scan *)
| HardForced         (* SplitCode, line 64 *)
| ProseCut           (* SplitProse, line 110 *)
| Remainder.         (* lines 72 and 118 *)

Record atom : Type := mkAtom {
  a_text : list ascii;
  a_cause : cause;
  a_start : N;   (* [last_split] when the atom was cut *)
  a_index : N    (* the loop index [i]; [len] for the remainder *)
}.

Definition texts (atoms : list atom) : list (list ascii) := map a_text atoms.

(** ** SplitCode *)

Record code_state : Type := mkCode {
  depth : Z;
  last_split : N;
  atoms : list atom
}.

Definition code_init : code_state := mkCode 0 0 [].

Definition update_depth (c : ascii) (depth : Z) : Z :=
  if (c =? "{")%char then wrap_int (depth + 1)
  else if (c =? "}")%char then
         (if (0 <? depth)%Z then wrap_int (depth - 1) else depth)
       else depth.

(** The [while] of lines 52-61, started at [back_scan = i].  The result is
    [found_cut] and the state after the loop. *)
Fixpoint back_scan_loop (content : list ascii) (i : N) (fuel : nat)
    (back_scan : N) (st : code_state) : outcome (bool * code_state) :=
  if ((last_split st <? back_scan) && (i - back_scan <? 200))%N then
    match fuel with
    | O => Timeout
    | S fuel' =>
        if (at_ content back_scan =? newline)%char then
          s <- substr content (last_split st)
                 ((back_scan - last_split st) + 1) ;;
          Ok (true,
              mkCode (depth st) (back_scan + 1)
                (atoms st ++ [mkAtom s HardNewline (last_split st) i]))
        else back_scan_loop content i fuel' (back_scan - 1) st
    end
  else Ok (false, st).

Arguments back_scan_loop : simpl never.

(** One iteration of the [for] of lines 25-68. *)
Definition code_body (content : list ascii) (MIN_SIZE MAX_SIZE : N) (i : N)
    (st : code_state) : outcome code_state :=
  let c := at_ content i in
  let depth := update_depth c (depth st) in
  let current_len := (i - last_split st)%N in
  let is_newline := (c =? newline)%char in
  let at_zero_depth := (depth =? 0)%Z in
  if is_newline && at_zero_depth && (MIN_SIZE <? current_len)%N then
    s <- substr content (last_split st) (current_len + 1) ;;
    Ok (mkCode depth (i + 1)
          (atoms st ++ [mkAtom s (Soft depth) (last_split st) i]))
  else if (MAX_SIZE <=? current_len)%N then
    r <- back_scan_loop content i 201 i (mkCode depth (last_split st) (atoms st)) ;;
    let '(found_cut, st1) := r in
    if negb found_cut then
      s <- substr content (last_split st1) current_len ;;
      Ok (mkCode depth (i + 1)
            (atoms st1 ++ [mkAtom s HardForced (last_split st1) i]))
    else Ok st1
  else Ok (mkCode depth (last_split st) (atoms st)).

(** [n] iterations of the [for], from index [i]. *)
Fixpoint code_loop (content : list ascii) (MIN_SIZE MAX_SIZE : N) (n : nat)
    (i : N) (st : code_state) : outcome code_state :=
  match n with
  | O => Ok st
  | S n' =>
      st' <- code_body content MIN_SIZE MAX_SIZE i st ;;
      code_loop content MIN_SIZE MAX_SIZE n' (i + 1) st'
  end.

Definition code_MIN (maxChunkSize : N) : N := (maxChunkSize / 2)%N.
Definition code_MAX (maxChunkSize : N) : N := wrap_size (maxChunkSize * 2).

(** The state after the first [k] iterations of the scan. *)
Definition code_scan (content : list ascii) (maxChunkSize : N) (k : nat)
  : outcome code_state :=
  code_loop content (code_MIN maxChunkSize) (code_MAX maxChunkSize)
    k 0 code_init.

Definition SplitCode_atoms (content : list ascii) (maxChunkSize : N)
  : outcome (list atom) :=
  let len := size content in
  st <- code_scan content maxChunkSize (length content) ;;
  if (last_split st <? len)%N then
    s <- substr_from content (last_split st) ;;
    Ok (atoms st ++ [mkAtom s Remainder (last_split st) len])
  else Ok (atoms st).

Definition SplitCode (content : list ascii) (maxChunkSize : N)
  : outcome (list (list ascii)) :=
  fmap texts (SplitCode_atoms content maxChunkSize).

(** ** SplitProse *)

Record prose_state : Type := mkProse {
  p_last_split : N;
  p_atoms : list atom
}.

Definition prose_init : prose_state := mkProse 0 [].

Definition is_terminator (c : ascii) : bool :=
  ((c =? ".") || (c =? "!") || (c =? "?"))%char.

(** The value of [is_boundary] computed by lines 97-103. *)
Definition is_boundary (content : list ascii) (i : N) : bool :=
  let len := size content in
  let c := at_ content i in
  if (c =? newline)%char then
    (i + 1 <? len)%N && (at_ content (i + 1) =? newline)%char
  else if is_terminator c then
    (i + 1 <? len)%N &&
    ((at_ content (i + 1) =? " ")%char || (at_ content (i + 1) =? newline)%char)
  else false.

(** The test of line 108. *)
Definition eats_second_newline (content : list ascii) (i : N) : bool :=
  (at_ content i =? newline)%char && (i + 1 <? size content)%N
  && (at_ content (i + 1) =? newline)%char.

(** One iteration of the [for] of lines 87-114: the value of [i] at the end
    of the body and the new state. *)
Definition prose_body (content : list ascii) (TARGET_SIZE MAX_SIZE : N)
    (i : N) (st : prose_state) : outcome (N * prose_state) :=
  let current_len := (i - p_last_split st)%N in
  if (current_len <? TARGET_SIZE)%N then Ok (i, st)
  else
    if is_boundary content i || (MAX_SIZE <=? current_len)%N then
      let cut_len := (current_len + 1)%N in
      let cut_len :=
        if eats_second_newline content i then (cut_len + 1)%N else cut_len in
      s <- substr content (p_last_split st) cut_len ;;
      let last_split := (p_last_split st + cut_len)%N in
      Ok ((last_split - 1)%N,
          mkProse last_split
            (p_atoms st ++ [mkAtom s ProseCut (p_last_split st) i]))
    else Ok (i, st).

(** The [for] itself; the body moves [i], so the loop runs on fuel. *)
Fixpoint prose_loop (content : list ascii) (TARGET_SIZE MAX_SIZE : N)
    (fuel : nat) (i : N) (st : prose_state) : outcome prose_state :=
  if (i <? size content)%N then
    match fuel with
    | O => Timeout
    | S fuel' =>
        r <- prose_body content TARGET_SIZE MAX_SIZE i st ;;
        prose_loop content TARGET_SIZE MAX_SIZE fuel' (fst r + 1) (snd r)
    end
  else Ok st.

Definition prose_MAX (maxChunkSize : N) : N := wrap_size (maxChunkSize * 3).

Definition SplitProse_atoms (content : list ascii) (maxChunkSize : N)
  : outcome (list atom) :=
  let len := size content in
  st <- prose_loop content maxChunkSize (prose_MAX maxChunkSize)
          (length content) 0 prose_init ;;
  if (p_last_split st <? len)%N then
    s <- substr_from content (p_last_split st) ;;
    Ok (p_atoms st ++ [mkAtom s Remainder (p_last_split st) len])
  else Ok (p_atoms st).

Definition SplitProse (content : list ascii) (maxChunkSize : N)
  : outcome (list (list ascii)) :=
  fmap texts (SplitProse_atoms content maxChunkSize).

(** ** Atomize *)

Definition Atomize (content : list ascii) (strategy : string)
    (maxChunkSize : N) : outcome (list (list ascii)) :=
  if (strategy =? "code")%string then SplitCode content maxChunkSize
  else SplitProse content maxChunkSize.

Definition bytes (s : string) : list ascii := list_ascii_of_string s.

Definition nl2 : list ascii := [newline; newline].

(** ** The N-API binding ([binding.cpp], [AtomizeWrapped])

    A JavaScript argument is a string (given by the bytes that
    [Utf8Value()] returns for it), a number (given by the [int64_t] that
    [Int64Value()] returns for it) or something else.  The array that the
    binding returns holds, for each chunk, the JavaScript string that
    [Napi::String::New] makes of its bytes (lines 27-30); what that string
    is when the bytes are not well-formed UTF-8 (a chunk cut inside a
    multi-byte character) is left to [String_New]. *)

Inductive napi_value : Type :=
| JsString (utf8 : string)
| JsNumber (int64 : Z)
| JsOther.

(** The conversion of [maxChunkSize = ....Int64Value()]: [int64_t] to
    [size_t]. *)
Definition size_t_of_int64 (z : Z) : N := Z.to_N (z mod 2 ^ 64).

Definition AtomizeWrapped {js_string : Type}
    (String_New : list ascii -> js_string) (info : list napi_value)
  : outcome (list js_string) :=
  match nth_error info 0 with
  | Some (JsString input) =>
      let strategy :=
        match nth_error info 1 with
        | Some (JsString s) => s
        | _ => "prose"%string
        end in
      let maxChunkSize :=
        match nth_error info 2 with
        | Some (JsNumber n) => size_t_of_int64 n
        | _ => 512%N
        end in
      atoms <- Atomize (bytes input) strategy maxChunkSize ;;
      Ok (map String_New atoms)
  | _ => Throw TypeError
  end.

(** ** Specification vocabulary *)

Definition slice (content : list ascii) (pos count : N) : list ascii :=
  firstn (N.to_nat count) (skipn (N.to_nat pos) content).

(** The four ways through the body of the [for]. *)
Inductive code_step (content : list ascii) (MIN_SIZE MAX_SIZE : N)
    (i : N) (st st' : code_state) : Prop :=
| step_none :
    (i - last_split st < MAX_SIZE)%N ->
    last_split st' = last_split st ->
    atoms st' = atoms st ->
    code_step content MIN_SIZE MAX_SIZE i st st'
| step_soft :
    at_ content i = newline -> depth st' = 0%Z ->
    (MIN_SIZE < i - last_split st)%N ->
    last_split st' = (i + 1)%N ->
    atoms st' = atoms st ++
      [mkAtom (slice content (last_split st) (i - last_split st + 1))
         (Soft (depth st')) (last_split st) i] ->
    code_step content MIN_SIZE MAX_SIZE i st st'
| step_hard_newline b :
    (MAX_SIZE <= i - last_split st)%N ->
    (last_split st < b <= i)%N -> at_ content b = newline ->
    last_split st' = (b + 1)%N ->
    atoms st' = atoms st ++
      [mkAtom (slice content (last_split st) (b - last_split st + 1))
         HardNewline (last_split st) i] ->
    code_step content MIN_SIZE MAX_SIZE i st st'
| step_hard_forced :
    (MAX_SIZE <= i - last_split st)%N ->
    last_split st' = (i + 1)%N ->
    atoms st' = atoms st ++
      [mkAtom (slice content (last_split st) (i - last_split st))
         HardForced (last_split st) i] ->
    code_step content MIN_SIZE MAX_SIZE i st st'.

(** The remainder pushed by lines 71-73 (and 117-119). *)
Definition remainder (content : list ascii) (last_split : N) : list atom :=
  if (last_split <? size content)%N then
    [mkAtom (skipn (N.to_nat last_split) content) Remainder last_split
       (size content)]
  else [].

(** The value of [depth] once the first [k] bytes have been scanned. *)
Definition depth_after (content : list ascii) (k : N) : Z :=
  fold_left (fun d c => update_depth c d) (firstn (N.to_nat k) content) 0%Z.

Definition run_of (a : atom) : N := (a_index a - a_start a)%N.

Definition code_atom_ok (content : list ascii) (MIN_SIZE MAX_SIZE : N)
    (a : atom) : Prop :=
  (a_start a <= a_index a)%N /\ (run_of a <= MAX_SIZE)%N /\
  match a_cause a with
  | Soft d =>
      (a_index a < size content)%N /\ d = 0%Z /\
      d = depth_after content (a_index a + 1) /\
      at_ content (a_index a) = newline /\ (MIN_SIZE < run_of a)%N /\
      a_text a = slice content (a_start a) (run_of a + 1)
  | HardNewline =>
      (a_index a < size content)%N /\ (MAX_SIZE <= run_of a)%N /\
      exists b, (a_start a < b <= a_index a)%N /\ at_ content b = newline /\
                a_text a = slice content (a_start a) (b - a_start a + 1)
  | HardForced =>
      (a_index a < size content)%N /\ (MAX_SIZE <= run_of a)%N /\
      a_text a = slice content (a_start a) (run_of a)
  | Remainder =>
      a_index a = size content /\ (a_start a < size content)%N /\
      a_text a = skipn (N.to_nat (a_start a)) content
  | ProseCut => False
  end.

Definition code_inv (content : list ascii) (MIN_SIZE MAX_SIZE : N)
    (i : N) (st : code_state) : Prop :=
  (i - last_split st <= MAX_SIZE)%N /\
  depth st = depth_after content i /\
  Forall (code_atom_ok content MIN_SIZE MAX_SIZE) (atoms st) /\
  Forall (fun a => (a_index a < i)%N) (atoms st) /\
  NoDup (map a_index (atoms st)).

(** The length cut at index [i] for an atom started at [start]
    (lines 107-108). *)
Definition prose_cut_len (content : list ascii) (start i : N) : N :=
  if eats_second_newline content i then (i - start + 1 + 1)%N
  else (i - start + 1)%N.

Definition prose_atom_ok (content : list ascii) (TARGET_SIZE MAX_SIZE : N)
    (a : atom) : Prop :=
  (a_start a <= a_index a)%N /\
  (run_of a <= N.max TARGET_SIZE MAX_SIZE)%N /\
  match a_cause a with
  | ProseCut =>
      (a_index a < size content)%N /\ (TARGET_SIZE <= run_of a)%N /\
      (is_boundary content (a_index a) = true \/ (MAX_SIZE <= run_of a)%N) /\
      a_text a
      = slice content (a_start a) (prose_cut_len content (a_start a) (a_index a)) /\
      (a_start a + prose_cut_len content (a_start a) (a_index a)
       <= size content)%N
  | Remainder =>
      a_index a = size content /\ (a_start a < size content)%N /\
      a_text a = skipn (N.to_nat (a_start a)) content
  | _ => False
  end.

(** Each atom starts where the one before it ends. *)
Fixpoint chained (s : N) (l : list atom) (e : N) : Prop :=
  match l with
  | [] => s = e
  | a :: tl =>
      a_start a = s /\ chained (s + N.of_nat (length (a_text a)))%N tl e
  end.

(** The two ways through the body of the [for]. *)
Inductive prose_step (content : list ascii) (TARGET_SIZE MAX_SIZE : N)
    (i : N) (st : prose_state) (i' : N) (st' : prose_state) : Prop :=
| pstep_none :
    (i - p_last_split st < TARGET_SIZE)%N \/
    (is_boundary content i = false /\ (i - p_last_split st < MAX_SIZE)%N) ->
    i' = i -> st' = st ->
    prose_step content TARGET_SIZE MAX_SIZE i st i' st'
| pstep_cut :
    (TARGET_SIZE <= i - p_last_split st)%N ->
    is_boundary content i = true \/ (MAX_SIZE <= i - p_last_split st)%N ->
    (i' + 1 = p_last_split st + prose_cut_len content (p_last_split st) i)%N ->
    st' = mkProse (p_last_split st + prose_cut_len content (p_last_split st) i)
            (p_atoms st ++
             [mkAtom (slice content (p_last_split st) (prose_cut_len content (p_last_split st) i))
                ProseCut (p_last_split st) i]) ->
    prose_step content TARGET_SIZE MAX_SIZE i st i' st'.

Definition prose_inv (content : list ascii) (TARGET_SIZE MAX_SIZE : N)
    (i : N) (st : prose_state) : Prop :=
  (i - p_last_split st <= N.max TARGET_SIZE MAX_SIZE)%N /\
  Forall (prose_atom_ok content TARGET_SIZE MAX_SIZE) (p_atoms st) /\
  chained 0 (p_atoms st) (p_last_split st) /\
  concat (texts (p_atoms st)) = firstn (N.to_nat (p_last_split st)) content /\
  (p_last_split st = 0%N \/ p_atoms st <> []).

Definition returns_chunks (r : outcome (list (list ascii)))
    (Q : list (list ascii) -> Prop) : Prop :=
  exists chunks, r = Ok chunks /\ Q chunks.

Definition rejected {A} (r : outcome A) : Prop := exists e, r = Throw e.

(** The hard ceiling of the strategy: [MAX] of the spec. *)
Definition hard_ceiling (strategy : string) (targetSize : N) : N :=
  if (strategy =? "code")%string then (targetSize * 2)%N else (targetSize * 3)%N.

(** The bytes a cut takes past the run it measured: the newline of the code
    splitter, and the trigger byte and the second newline of the prose
    splitter. *)
Definition overshoot (strategy : string) : N :=
  if (strategy =? "code")%string then 1%N else 2%N.

(** The chunk of [a] is [content[a_start a .. e)], and it stops right after
    a boundary: [content[e-1]] is a sentence terminator and [content[e]] a
    space or a newline, or [content[e-2]] and [content[e-1]] are two
    newlines, both inside the chunk. *)
Definition ends_after_boundary (content : list ascii) (a : atom) : Prop :=
  let e := (a_start a + size (a_text a))%N in
  a_text a = slice content (a_start a) (size (a_text a)) /\
  ((is_terminator (at_ content (e - 1)) = true /\ (1 <= size (a_text a))%N /\
    (e < size content)%N /\
    (at_ content e = " "%char \/ at_ content e = newline))
   \/
   (at_ content (e - 2) = newline /\ at_ content (e - 1) = newline /\
    (2 <= size (a_text a))%N /\ (e <= size content)%N)).

(** No boundary is detected at the indices [lo <= i < hi]. *)
Definition no_boundary_between (content : list ascii) (lo hi : N) : bool :=
  forallb (fun k => negb (is_boundary content (N.of_nat k)))
    (seq (N.to_nat lo) (N.to_nat hi - N.to_nat lo)).

(** ** Further vocabulary: the layout of the chunks of SplitCode *)

(** The byte a forced split leaves between its chunk and the next one. *)
Definition gap (a : atom) : N :=
  match a_cause a with
  | HardForced => 1%N
  | _ => 0%N
  end.

(** Each atom starts where the one before it ends, one byte further after a
    forced split. *)
Fixpoint code_chained (s : N) (l : list atom) (e : N) : Prop :=
  match l with
  | [] => s = e
  | a :: tl =>
      a_start a = s /\ code_chained (s + size (a_text a) + gap a)%N tl e
  end.

Definition is_forced (a : atom) : bool :=
  match a_cause a with
  | HardForced => true
  | _ => false
  end.

Definition forced_count (l : list atom) : N :=
  N.of_nat (length (filter is_forced l)).

Definition total_size (chunks : list (list ascii)) : N :=
  N.of_nat (length (concat chunks)).

(** The index of the last byte of an atom. *)
Definition a_last (a : atom) : N := (a_start a + size (a_text a) - 1)%N.

(** What the backward scan of lines 50-61 guarantees for the atom it cuts
    (a newline less than 200 bytes behind [i], and none after it up to
    [i]) and for the forced split that follows a failed scan (no newline
    among the bytes the scan looked at). *)
Definition hard_atom_ok (content : list ascii) (a : atom) : Prop :=
  match a_cause a with
  | HardNewline =>
      (a_start a < a_last a <= a_index a)%N /\
      (a_index a - a_last a < 200)%N /\
      at_ content (a_last a) = newline /\
      (forall j, (a_last a < j <= a_index a)%N -> at_ content j <> newline)
  | HardForced =>
      forall j, (a_start a < j <= a_index a)%N -> (a_index a - j < 200)%N ->
                at_ content j <> newline
  | _ => True
  end.

(** The atoms [l] cover [content] up to [e] in order, but for the bytes the
    forced splits skipped. *)
Definition layout_inv (content : list ascii) (l : list atom) (e : N) : Prop :=
  code_chained 0 l e /\
  Forall (fun a => a_text a = slice content (a_start a) (size (a_text a))) l /\
  (total_size (texts l) + forced_count l = e)%N.

(** ** HtmlIngestor ([html_ingestor.cpp])

    [CleanHtml] works on the bytes of its argument.  [std::isspace] is
    taken in the "C" locale, which is the locale of a program that never
    calls [setlocale]. *)

Definition isspace (c : ascii) : bool :=
  ((c =? " ") || (c =? "009") || (c =? "010") || (c =? "011")
   || (c =? "012") || (c =? "013"))%char.

Definition carriage_return : ascii := "013"%char.
Definition double_quote : ascii := "034"%char.

(** [raw.substr(pos, count) == s] for a literal [s]. *)
Definition substr_is (raw : list ascii) (pos count : N) (s : string)
  : outcome bool :=
  x <- substr raw pos count ;; Ok (string_of_list_ascii x =? s)%string.

(** [a && b] and [a || b] when the operands may throw: [b] is run only when
    [a] does not decide. *)
Definition andM (a b : outcome bool) : outcome bool :=
  x <- a ;; if x then b else Ok false.

Definition orM (a b : outcome bool) : outcome bool :=
  x <- a ;; if x then Ok true else b.

(** The test of lines 82-86. *)
Definition is_script_open (raw : list ascii) (i : N) : outcome bool :=
  let len := size raw in
  andM (Ok (i + 6 <? len)%N)
    (orM (substr_is raw i 7 "<script")
    (orM (substr_is raw i 7 "<SCRIPT")
    (orM (andM (Ok (i + 7 <? len)%N)
            (andM (substr_is raw i 8 "<script ")
               (Ok (isspace (at_ raw (i + 7))))))
         (andM (Ok (i + 7 <? len)%N)
            (andM (substr_is raw i 8 "<SCRIPT ")
               (Ok (isspace (at_ raw (i + 7))))))))).

(** The test of lines 88-92. *)
Definition is_style_open (raw : list ascii) (i : N) : outcome bool :=
  let len := size raw in
  andM (Ok (i + 5 <? len)%N)
    (orM (substr_is raw i 6 "<style")
    (orM (substr_is raw i 6 "<STYLE")
    (orM (andM (Ok (i + 6 <? len)%N)
            (andM (substr_is raw i 7 "<style ")
               (Ok (isspace (at_ raw (i + 6))))))
         (andM (Ok (i + 6 <? len)%N)
            (andM (substr_is raw i 7 "<STYLE ")
               (Ok (isspace (at_ raw (i + 6))))))))).

(** [while (pos > 0 && raw_html[pos] != '<') pos--;] *)
Fixpoint look_back (raw : list ascii) (pos : nat) : nat :=
  match pos with
  | O => O
  | S p => if (nth pos raw zero =? "<")%char then pos else look_back raw p
  end.

(** The tests of lines 107-108 and 114-115, with the loop before them. *)
Definition closes_element (raw : list ascii) (i : N) (count : N)
    (lower upper : string) : outcome bool :=
  let pos := N.of_nat (look_back raw (N.to_nat i)) in
  andM (Ok (0 <? pos)%N)
    (orM (substr_is raw pos count lower) (substr_is raw pos count upper)).

Record html_state : Type := mkHtml {
  in_script : bool;
  in_style : bool;
  in_tag : bool;
  clean : list ascii
}.

Definition html_init : html_state := mkHtml false false false [].

Definition push (st : html_state) (c : ascii) : html_state :=
  mkHtml (in_script st) (in_style st) (in_tag st) (clean st ++ [c]).

(** The entity tests of lines 141-164: the character to add and the
    increment of [i], or [None] when no test holds. *)
Definition decode_entity (raw : list ascii) (i : N)
  : outcome (option (ascii * N)) :=
  let len := size raw in
  e <- andM (Ok (i + 4 <? len)%N) (substr_is raw i 5 "&amp;") ;;
  if e then Ok (Some ("&"%char, 4%N)) else
  e <- andM (Ok (i + 5 <? len)%N) (substr_is raw i 6 "&lt;") ;;
  if e then Ok (Some ("<"%char, 3%N)) else
  e <- andM (Ok (i + 5 <? len)%N) (substr_is raw i 6 "&gt;") ;;
  if e then Ok (Some (">"%char, 3%N)) else
  e <- andM (Ok (i + 5 <? len)%N) (substr_is raw i 6 "&quot;") ;;
  if e then Ok (Some (double_quote, 5%N)) else
  e <- andM (Ok (i + 4 <? len)%N) (substr_is raw i 5 "&#39;") ;;
  if e then Ok (Some ("'"%char, 4%N)) else
  Ok None.

Definition is_empty (s : list ascii) : bool :=
  match s with
  | [] => true
  | _ => false
  end.

(** One iteration of the [for] of lines 77-168: the value of [i] at the end
    of the body and the new state. *)
Definition html_body (raw : list ascii) (i : N) (st : html_state)
  : outcome (N * html_state) :=
  let len := size raw in
  let c := at_ raw i in
  if (c =? "<")%char then
    so <- is_script_open raw i ;;
    if so then Ok (i, mkHtml true (in_style st) true (clean st))
    else
      sy <- is_style_open raw i ;;
      if sy then Ok (i, mkHtml (in_script st) true true (clean st))
      else Ok (i, mkHtml (in_script st) (in_style st) true (clean st))
  else if (c =? ">")%char then
    if in_script st && (i + 8 <? len)%N then
      cl <- closes_element raw i 9 "</script>" "</SCRIPT>" ;;
      Ok (i, mkHtml (if cl then false else in_script st) (in_style st) false
               (clean st))
    else if in_style st && (i + 7 <? len)%N then
      cl <- closes_element raw i 8 "</style>" "</STYLE>" ;;
      Ok (i, mkHtml (in_script st) (if cl then false else in_style st) false
               (clean st))
    else Ok (i, mkHtml (in_script st) (in_style st) false (clean st))
  else if in_script st || in_style st then Ok (i, st)
  else if in_tag st then Ok (i, st)
  else if ((c =? newline) || (c =? carriage_return))%char then
    if is_empty (clean st) || negb (last (clean st) zero =? newline)%char
    then Ok (i, push st newline)
    else Ok (i, st)
  else
    r <- (if (c =? "&")%char && (i + 1 <? len)%N then decode_entity raw i
          else Ok None) ;;
    match r with
    | Some (d, k) => Ok ((i + k)%N, push st d)
    | None => Ok (i, push st c)
    end.

(** The [for] itself; the body moves [i], so the loop runs on fuel. *)
Fixpoint html_loop (raw : list ascii) (fuel : nat) (i : N) (st : html_state)
  : outcome html_state :=
  if (i <? size raw)%N then
    match fuel with
    | O => Timeout
    | S fuel' =>
        r <- html_body raw i st ;;
        html_loop raw fuel' (fst r + 1) (snd r)
    end
  else Ok st.

(** One iteration of the range-[for] of lines 175-185, on the pair of
    [normalized] and [last_was_space]. *)
Definition norm_step (acc : list ascii * bool) (c : ascii)
  : list ascii * bool :=
  if isspace c then
    (if snd acc then acc else (fst acc ++ [" "%char], true))
  else (fst acc ++ [c], false).

Definition normalize_ws (clean : list ascii) : list ascii :=
  fst (fold_left norm_step clean ([], false)).

Definition CleanHtml (raw_html : list ascii) : outcome (list ascii) :=
  st <- html_loop raw_html (length raw_html) 0 html_init ;;
  Ok (normalize_ws (clean st)).

(** [HtmlIngestor::ExtractContent], on the arguments of the call. *)
Definition ExtractContent (info : list napi_value) : outcome (list ascii) :=
  match nth_error info 0 with
  | Some (JsString html) => CleanHtml (bytes html)
  | _ => Throw TypeError
  end.

(** [slice raw pos count] read as a string is [s]. *)
Definition slice_is (raw : list ascii) (pos count : N) (s : string) : bool :=
  (string_of_list_ascii (slice raw pos count) =? s)%string.

(** The entity that [decode_entity] finds at [i]: the two tests for "&lt;"
    and "&gt;" compare six bytes with a literal of four and never hold. *)
Definition entity_at (raw : list ascii) (i : N) : option (ascii * N) :=
  if (i + 4 <? size raw)%N && slice_is raw i 5 "&amp;"
  then Some ("&"%char, 4%N)
  else if (i + 5 <? size raw)%N && slice_is raw i 6 "&quot;"
  then Some (double_quote, 5%N)
  else if (i + 4 <? size raw)%N && slice_is raw i 5 "&#39;"
  then Some ("'"%char, 4%N)
  else None.

(** The whitespace normalization as a function of the rest of [clean] and
    of [last_was_space]. *)
Fixpoint norm_from (last_was_space : bool) (l : list ascii) : list ascii :=
  match l with
  | [] => []
  | c :: tl =>
      if isspace c then
        (if last_was_space then norm_from true tl
         else " "%char :: norm_from true tl)
      else c :: norm_from false tl
  end.

(** No two adjacent characters are both whitespace. *)
Fixpoint single_spaced (l : list ascii) : Prop :=
  match l with
  | c :: ((d :: _) as tl) =>
      ~ (isspace c = true /\ isspace d = true) /\ single_spaced tl
  | _ => True
  end.

Definition starts_nonspace (l : list ascii) : Prop :=
  match l with
  | c :: _ => isspace c = false
  | [] => True
  end.

Definition no_angle (c : ascii) : Prop := c <> "<"%char /\ c <> ">"%char.

(** [l] starts with the bytes of [p]. *)
Definition starts_with (p : string) (l : list ascii) : bool :=
  (string_of_list_ascii (firstn (String.length p) l) =? p)%string.

(** Reading left to right, replace each "&amp;", "&quot;" and "&#39;" by its
    character and keep every other byte; [skip] bytes are still to be
    passed over after a replacement. *)
Fixpoint decode_entities (skip : nat) (l : list ascii) : list ascii :=
  match l with
  | [] => []
  | c :: tl =>
      match skip with
      | S k => decode_entities k tl
      | O =>
          if starts_with "&amp;" l then "&"%char :: decode_entities 4 tl
          else if starts_with "&quot;" l
          then double_quote :: decode_entities 5 tl
          else if starts_with "&#39;" l then "'"%char :: decode_entities 4 tl
          else c :: decode_entities 0 tl
      end
  end.

(** Text without markup and with single spaces: no '<' and no '>', and every
    whitespace character is a space that does not follow a whitespace
    character. *)
Definition plain_text (raw : list ascii) : bool :=
  forallb (fun c => negb (c =? "<")%char && negb (c =? ">")%char) raw
  && forallb
       (fun k =>
          let c := nth k raw zero in
          negb (isspace c)
          || ((c =? " ")%char
              && ((k =? 0)%nat || negb (isspace (nth (k - 1) raw zero)))))
       (seq 0 (length raw)).

(** [last_was_space] when the scan of a plain text is at index [i]. *)
Definition space_before (raw : list ascii) (i : N) : bool :=
  if (i =? 0)%N then false else isspace (at_ raw (i - 1)).

(** Reading left to right: drop everything from a '<' to the next '>', drop
    a '>' that closes nothing, and outside tags decode the three entities
    as [decode_entities] does. *)
Fixpoint strip_markup (skip : nat) (in_tag : bool) (l : list ascii)
  : list ascii :=
  match l with
  | [] => []
  | c :: tl =>
      match skip with
      | S k => strip_markup k in_tag tl
      | O =>
          if (c =? "<")%char then strip_markup 0 true tl
          else if (c =? ">")%char then strip_markup 0 false tl
          else if in_tag then strip_markup 0 true tl
          else if starts_with "&amp;" l
          then "&"%char :: strip_markup 4 false tl
          else if starts_with "&quot;" l
          then double_quote :: strip_markup 5 false tl
          else if starts_with "&#39;" l
          then "'"%char :: strip_markup 4 false tl
          else c :: strip_markup 0 false tl
      end
  end.

(** No "<script", "<SCRIPT", "<style" or "<STYLE" anywhere in the input:
    the four spellings that CleanHtml looks for. *)
Definition no_script_style (raw : list ascii) : bool :=
  forallb
    (fun k =>
       negb (starts_with "<script" (skipn k raw)
             || starts_with "<SCRIPT" (skipn k raw)
             || starts_with "<style" (skipn k raw)
             || starts_with "<STYLE" (skipn k raw)))
    (seq 0 (length raw)).

(** A closing script tag, in one of the two spellings that CleanHtml looks
    for, starts at index [p]; a style element opens at index [p]. *)
Definition script_close_at (raw : list ascii) (p : nat) : bool :=
  starts_with "</script>" (skipn p raw)
  || starts_with "</SCRIPT>" (skipn p raw).

Definition style_open_at (raw : list ascii) (p : nat) : bool :=
  starts_with "<style" (skipn p raw) || starts_with "<STYLE" (skipn p raw).

(** Every closing script tag of the input has less than eight bytes after
    its '>'. *)
Definition script_close_near_end (raw : list ascii) : bool :=
  forallb
    (fun p => negb (script_close_at raw p) || (length raw <=? p + 16)%nat)
    (seq 0 (length raw)).

(** Before index [e] no closing script tag starts and no style element
    opens. *)
Definition script_body_until (raw : list ascii) (e : nat) : bool :=
  forallb
    (fun p => negb (script_close_at raw p) && negb (style_open_at raw p))
    (seq 0 e).

(** ** ToolExecutor::Execute ([tool_executor.cpp]): the unescaping of the
    content of write_file (lines 70-83) *)

Definition backslash : ascii := "\"%char.
Definition tab : ascii := "009"%char.

(** One iteration of the [for] of lines 70-83: the value of [i] at the end of
    the body and the new [unescaped_content]. *)
Definition unescape_body (content : list ascii) (i : N)
    (unescaped_content : list ascii) : N * list ascii :=
  if (at_ content i =? backslash)%char && (i + 1 <? size content)%N then
    let e := at_ content (i + 1) in
    if (e =? "n")%char then ((i + 1)%N, unescaped_content ++ [newline])
    else if (e =? "t")%char then ((i + 1)%N, unescaped_content ++ [tab])
    else if (e =? "r")%char
    then ((i + 1)%N, unescaped_content ++ [carriage_return])
    else if (e =? backslash)%char
    then ((i + 1)%N, unescaped_content ++ [backslash])
    else if (e =? double_quote)%char
    then ((i + 1)%N, unescaped_content ++ [double_quote])
    else (i, unescaped_content ++ [at_ content i])
  else (i, unescaped_content ++ [at_ content i]).

Fixpoint unescape_loop (content : list ascii) (fuel : nat) (i : N)
    (unescaped_content : list ascii) : outcome (list ascii) :=
  if (i <? size content)%N then
    match fuel with
    | O => Timeout
    | S fuel' =>
        let r := unescape_body content i unescaped_content in
        unescape_loop content fuel' (fst r + 1) (snd r)
    end
  else Ok unescaped_content.

Definition unescape_content (content : list ascii) : outcome (list ascii) :=
  unescape_loop content (length content) 0 [].

(** The same, read off the text from left to right. *)
Fixpoint unescaped (l : list ascii) : list ascii :=
  match l with
  | [] => []
  | c :: tl =>
      if (c =? backslash)%char then
        match tl with
        | [] => [c]
        | e :: tl' =>
            if (e =? "n")%char then newline :: unescaped tl'
            else if (e =? "t")%char then tab :: unescaped tl'
            else if (e =? "r")%char then carriage_return :: unescaped tl'
            else if (e =? backslash)%char then backslash :: unescaped tl'
            else if (e =? double_quote)%char then double_quote :: unescaped tl'
            else c :: unescaped tl
        end
      else c :: unescaped tl
  end.

(** The escaping that the loop undoes: a backslash and a letter for newline,
    tab and carriage return, a backslash before a backslash and before a
    double quote. *)
Definition escape_char (c : ascii) : list ascii :=
  if (c =? newline)%char then [backslash; "n"%char]
  else if (c =? tab)%char then [backslash; "t"%char]
  else if (c =? carriage_return)%char then [backslash; "r"%char]
  else if (c =? backslash)%char then [backslash; backslash]
  else if (c =? double_quote)%char then [backslash; double_quote]
  else [c].

Definition escaped (l : list ascii) : list ascii := flat_map escape_char l.

(** ** Basic facts *)

Lemma substr_ok content pos count :
  (pos <= size content)%N -> substr content pos count = Ok (slice content pos count).
Proof.
  intros H. unfold substr.
  destruct (N.ltb_spec (size content) pos); [lia | reflexivity].
Qed.

Lemma substr_from_ok content pos :
  (pos <= size content)%N ->
  substr_from content pos = Ok (skipn (N.to_nat pos) content).
Proof.
  intros H. unfold substr_from.
  destruct (N.ltb_spec (size content) pos); [lia | reflexivity].
Qed.

Lemma slice_length content pos count :
  (pos + count <= size content)%N ->
  N.of_nat (length (slice content pos count)) = count.
Proof.
  unfold slice, size. intros H.
  rewrite length_firstn, length_skipn. lia.
Qed.

(** Appending the next slice extends a prefix. *)
Lemma firstn_slice content pos count :
  firstn (N.to_nat pos) content ++ slice content pos count
  = firstn (N.to_nat (pos + count)) content.
Proof.
  unfold slice.
  replace (N.to_nat (pos + count)) with (N.to_nat pos + N.to_nat count)%nat by lia.
  generalize (N.to_nat pos) (N.to_nat count). clear.
  intros p c. revert content.
  induction p as [|p IH]; intros [|x xs]; simpl; try reflexivity.
  - now rewrite firstn_nil.
  - now rewrite IH.
Qed.

Lemma slice_last content pos count :
  (pos + count < size content)%N ->
  slice content pos (count + 1)
  = slice content pos count ++ [at_ content (pos + count)].
Proof.
  unfold slice, size, at_. intros H.
  replace (N.to_nat (count + 1)) with (S (N.to_nat count)) by lia.
  replace (N.to_nat (pos + count)) with (N.to_nat pos + N.to_nat count)%nat by lia.
  assert (Hlt : (N.to_nat pos + N.to_nat count < length content)%nat) by lia.
  revert Hlt. generalize (N.to_nat pos) (N.to_nat count). clear.
  intros p c. revert content c.
  induction p as [|p IH]; intros content c Hlt; simpl.
  - revert content Hlt. induction c as [|c IHc]; intros [|x xs] Hlt; simpl in *;
      try lia; try reflexivity.
    f_equal. apply IHc. lia.
  - destruct content as [|x xs]; simpl in *; [lia|]. apply IH. lia.
Qed.

(** ** The iterations of SplitCode, case by case *)

Section CodeBody.

Variable content : list ascii.
Variables MIN_SIZE MAX_SIZE : N.

Lemma back_scan_loop_eq i fuel b st :
  back_scan_loop content i fuel b st
  = if ((last_split st <? b) && (i - b <? 200))%N then
      match fuel with
      | O => Timeout
      | S fuel' =>
          if (at_ content b =? newline)%char then
            s <- substr content (last_split st) ((b - last_split st) + 1) ;;
            Ok (true,
                mkCode (depth st) (b + 1)
                  (atoms st ++ [mkAtom s HardNewline (last_split st) i]))
          else back_scan_loop content i fuel' (b - 1) st
      end
    else Ok (false, st).
Proof. destruct fuel; reflexivity. Qed.

Lemma back_scan_loop_spec i st :
  (last_split st <= i)%N -> (i < size content)%N ->
  forall fuel b,
    (b <= i)%N -> (200 <= N.of_nat fuel + (i - b))%N ->
    back_scan_loop content i fuel b st = Ok (false, st)
    \/ exists b',
        (last_split st < b' <= b)%N /\ at_ content b' = newline /\
        back_scan_loop content i fuel b st
        = Ok (true,
              mkCode (depth st) (b' + 1)
                (atoms st ++
                 [mkAtom (slice content (last_split st) (b' - last_split st + 1))
                    HardNewline (last_split st) i])).
Proof.
  intros Hls Hi.
  induction fuel as [|fuel IH]; intros b Hb Hfuel; rewrite back_scan_loop_eq.
  - destruct (N.ltb_spec (last_split st) b); simpl; [|now left].
    destruct (N.ltb_spec (i - b) 200); [lia | now left].
  - destruct (N.ltb_spec (last_split st) b); simpl; [|now left].
    destruct (N.ltb_spec (i - b) 200); [|now left].
    destruct (Ascii.eqb_spec (at_ content b) newline) as [Hnl|Hnl].
    + right. exists b. split; [lia|]. split; [assumption|].
      rewrite substr_ok by lia. reflexivity.
    + destruct (IH (b - 1)%N) as [E|(b' & Hb' & Hat & E)]; try lia.
      * now left.
      * right. exists b'. split; [lia|]. split; [assumption|].
        exact E.
Qed.

(** Lines 48-67, entered with the updated [depth]. *)
Lemma hard_limit_spec i st d :
  (last_split st <= i)%N -> (i < size content)%N ->
  exists st',
    (if (MAX_SIZE <=? i - last_split st)%N then
       r <- back_scan_loop content i 201 i (mkCode d (last_split st) (atoms st)) ;;
       let '(found_cut, st1) := r in
       if negb found_cut then
         s <- substr content (last_split st1) (i - last_split st) ;;
         Ok (mkCode d (i + 1)
               (atoms st1 ++ [mkAtom s HardForced (last_split st1) i]))
       else Ok st1
     else Ok (mkCode d (last_split st) (atoms st))) = Ok st' /\
    depth st' = d /\ code_step content MIN_SIZE MAX_SIZE i st st'.
Proof.
  intros Hls Hi.
  destruct (N.leb_spec MAX_SIZE (i - last_split st)) as [HM|HM].
  2:{ eexists. split; [reflexivity|]. split; [reflexivity|].
      apply step_none; simpl; auto. }
  destruct (back_scan_loop_spec i (mkCode d (last_split st) (atoms st))
              Hls Hi 201%nat i ltac:(lia) ltac:(lia))
    as [E|(b' & Hb' & Hat & E)]; rewrite E; simpl.
  - rewrite substr_ok by lia. simpl.
    eexists. split; [reflexivity|]. split; [reflexivity|].
    apply step_hard_forced; simpl; auto.
  - eexists. split; [reflexivity|]. split; [reflexivity|].
    simpl in Hb'. eapply step_hard_newline with (b := b'); simpl; eauto.
Qed.

Lemma code_body_spec i st :
  (last_split st <= i)%N -> (i < size content)%N ->
  exists st',
    code_body content MIN_SIZE MAX_SIZE i st = Ok st' /\
    depth st' = update_depth (at_ content i) (depth st) /\
    code_step content MIN_SIZE MAX_SIZE i st st'.
Proof.
  intros Hls Hi. unfold code_body.
  set (d := update_depth (at_ content i) (depth st)).
  destruct (Ascii.eqb_spec (at_ content i) newline) as [Hnl|Hnl];
    [|apply hard_limit_spec; assumption].
  destruct (Z.eqb_spec d 0) as [Hd|Hd];
    [|apply hard_limit_spec; assumption].
  destruct (N.ltb_spec MIN_SIZE (i - last_split st)) as [Hm|Hm];
    [|apply hard_limit_spec; assumption].
  simpl. rewrite substr_ok by lia. simpl.
  eexists. split; [reflexivity|]. split; [reflexivity|].
  apply step_soft; simpl; auto.
Qed.

End CodeBody.

(** ** Loop rules *)

Section CodeLoop.

Variable content : list ascii.
Variables MIN_SIZE MAX_SIZE : N.

Lemma code_step_last_split i st st' :
  (last_split st <= i)%N -> code_step content MIN_SIZE MAX_SIZE i st st' ->
  (last_split st' <= i + 1)%N.
Proof. intros H [ | | b | ]; intros; lia. Qed.

(** An invariant of the body is an invariant of the loop, which returns. *)
Lemma code_loop_inv (P : N -> code_state -> Prop) :
  (forall i st st',
      (i < size content)%N -> (last_split st <= i)%N -> P i st ->
      depth st' = update_depth (at_ content i) (depth st) ->
      code_step content MIN_SIZE MAX_SIZE i st st' ->
      P (i + 1)%N st') ->
  forall n i st,
    (i + N.of_nat n <= size content)%N -> (last_split st <= i)%N -> P i st ->
    exists st',
      code_loop content MIN_SIZE MAX_SIZE n i st = Ok st' /\
      (last_split st' <= i + N.of_nat n)%N /\ P (i + N.of_nat n)%N st'.
Proof.
  intros Hstep. induction n as [|n IH]; intros i st Hn Hls HP.
  - exists st. replace (i + N.of_nat 0)%N with i by lia. auto.
  - destruct (code_body_spec content MIN_SIZE MAX_SIZE i st Hls)
      as (st1 & E & Hd & Hs); [lia|].
    destruct (IH (i + 1)%N st1) as (st' & E' & Hls' & HP').
    + lia.
    + eapply code_step_last_split; eauto.
    + eapply Hstep; eauto. lia.
    + exists st'. cbn [code_loop]. rewrite E. cbn [bind].
      replace (i + N.of_nat (S n))%N with (i + 1 + N.of_nat n)%N by lia.
      auto.
Qed.

(** Running [k + m] iterations is running [k], then [m]. *)
Lemma code_loop_app k m i st :
  code_loop content MIN_SIZE MAX_SIZE (k + m) i st
  = st' <- code_loop content MIN_SIZE MAX_SIZE k i st ;;
    code_loop content MIN_SIZE MAX_SIZE m (i + N.of_nat k) st'.
Proof.
  revert i st. induction k as [|k IH]; intros i st.
  - cbn [code_loop bind Nat.add]. now replace (i + N.of_nat 0)%N with i by lia.
  - cbn [code_loop Nat.add].
    destruct (code_body content MIN_SIZE MAX_SIZE i st); cbn [bind]; auto.
    rewrite IH. now replace (i + 1 + N.of_nat k)%N with (i + N.of_nat (S k))%N by lia.
Qed.

End CodeLoop.

Lemma SplitCode_atoms_inv content t (P : N -> code_state -> Prop) :
  (forall i st st',
      (i < size content)%N -> (last_split st <= i)%N -> P i st ->
      depth st' = update_depth (at_ content i) (depth st) ->
      code_step content (code_MIN t) (code_MAX t) i st st' ->
      P (i + 1)%N st') ->
  P 0%N code_init ->
  exists st,
    code_scan content t (length content) = Ok st /\
    (last_split st <= size content)%N /\ P (size content) st /\
    SplitCode_atoms content t = Ok (atoms st ++ remainder content (last_split st)).
Proof.
  intros Hstep H0.
  destruct (code_loop_inv content (code_MIN t) (code_MAX t) P Hstep
              (length content) 0%N code_init) as (st & E & Hls & HP);
    try (unfold size; cbn; lia); auto.
  change (0 + N.of_nat (length content))%N with (size content) in *.
  exists st. repeat split; auto.
  unfold SplitCode_atoms, code_scan, remainder. rewrite E. cbn [bind].
  destruct (N.ltb_spec (last_split st) (size content)).
  - rewrite substr_from_ok by lia. reflexivity.
  - now rewrite app_nil_r.
Qed.

(** SplitCode always returns. *)
Lemma SplitCode_atoms_returns content t :
  exists st,
    code_scan content t (length content) = Ok st /\
    (last_split st <= size content)%N /\
    SplitCode_atoms content t = Ok (atoms st ++ remainder content (last_split st)).
Proof.
  destruct (SplitCode_atoms_inv content t (fun _ _ => True)) as (st & ? & ? & _ & ?);
    eauto.
Qed.

(** ** The iterations of SplitProse, case by case *)

Section ProseLoop.

Variable content : list ascii.
Variables TARGET_SIZE MAX_SIZE : N.

Lemma eats_second_newline_spec i :
  eats_second_newline content i = true <->
  at_ content i = newline /\ (i + 1 < size content)%N /\ at_ content (i + 1) = newline.
Proof.
  unfold eats_second_newline.
  rewrite !andb_true_iff, !Ascii.eqb_eq, N.ltb_lt. tauto.
Qed.

Lemma cut_len_bound i st :
  (p_last_split st <= i)%N -> (i < size content)%N ->
  (p_last_split st + prose_cut_len content (p_last_split st) i <= size content)%N /\
  (i + 1 <= p_last_split st + prose_cut_len content (p_last_split st) i <= i + 2)%N.
Proof.
  intros Hls Hi. unfold prose_cut_len.
  destruct (eats_second_newline content i) eqn:E.
  - apply eats_second_newline_spec in E. lia.
  - lia.
Qed.

Lemma prose_body_spec i st :
  (p_last_split st <= i)%N -> (i < size content)%N ->
  exists i' st',
    prose_body content TARGET_SIZE MAX_SIZE i st = Ok (i', st') /\
    prose_step content TARGET_SIZE MAX_SIZE i st i' st'.
Proof.
  intros Hls Hi. unfold prose_body.
  destruct (N.ltb_spec (i - p_last_split st) TARGET_SIZE) as [Ht|Ht].
  { exists i, st. split; [reflexivity|]. apply pstep_none; auto. }
  destruct (is_boundary content i) eqn:Eb; cbn [orb].
  - destruct (cut_len_bound i st Hls Hi) as [Hc1 Hc2].
    rewrite substr_ok by lia. cbn [bind].
    do 2 eexists. split; [reflexivity|].
    apply pstep_cut; auto; unfold prose_cut_len in *;
      destruct (eats_second_newline content i); try reflexivity; lia.
  - destruct (N.leb_spec MAX_SIZE (i - p_last_split st)) as [HM|HM].
    + destruct (cut_len_bound i st Hls Hi) as [Hc1 Hc2].
      rewrite substr_ok by lia. cbn [bind].
      do 2 eexists. split; [reflexivity|].
      apply pstep_cut; auto; unfold prose_cut_len in *;
        destruct (eats_second_newline content i); try reflexivity; lia.
    + exists i, st. split; [reflexivity|]. apply pstep_none; auto.
Qed.

Lemma prose_step_bounds i st i' st' :
  (p_last_split st <= i)%N -> (i < size content)%N ->
  prose_step content TARGET_SIZE MAX_SIZE i st i' st' ->
  (i < i' + 1 <= size content)%N /\ (p_last_split st' <= i' + 1)%N.
Proof.
  intros Hls Hi [H -> -> | Ht Hb Hi' ->].
  - lia.
  - destruct (cut_len_bound i st Hls Hi). cbn [p_last_split]. lia.
Qed.

(** An invariant of the body is an invariant of the loop, which returns
    as soon as its fuel covers the bytes still to scan. *)
Lemma prose_loop_inv (P : N -> prose_state -> Prop) :
  (forall i st i' st',
      (i < size content)%N -> (p_last_split st <= i)%N -> P i st ->
      prose_step content TARGET_SIZE MAX_SIZE i st i' st' -> P (i' + 1)%N st') ->
  forall fuel i st,
    (size content <= i + N.of_nat fuel)%N -> (i <= size content)%N ->
    (p_last_split st <= i)%N -> P i st ->
    exists st',
      prose_loop content TARGET_SIZE MAX_SIZE fuel i st = Ok st' /\
      (p_last_split st' <= size content)%N /\ P (size content) st'.
Proof.
  intros Hstep. induction fuel as [|fuel IH]; intros i st Hf Hi Hls HP.
  - assert (i = size content) by lia. subst i. exists st. cbn [prose_loop].
    rewrite N.ltb_irrefl. auto.
  - cbn [prose_loop].
    destruct (N.ltb_spec i (size content)) as [Hlt|Hge].
    + destruct (prose_body_spec i st Hls Hlt) as (i' & st1 & E & Hs).
      rewrite E. cbn [bind fst snd].
      destruct (prose_step_bounds i st i' st1 Hls Hlt Hs) as [Hb1 Hb2].
      apply IH; try lia. eapply Hstep; eauto.
    + assert (i = size content) by lia. subst i. exists st. auto.
Qed.

End ProseLoop.

Lemma SplitProse_atoms_inv content t (P : N -> prose_state -> Prop) :
  (forall i st i' st',
      (i < size content)%N -> (p_last_split st <= i)%N -> P i st ->
      prose_step content t (prose_MAX t) i st i' st' -> P (i' + 1)%N st') ->
  P 0%N prose_init ->
  exists st,
    prose_loop content t (prose_MAX t) (length content) 0 prose_init = Ok st /\
    (p_last_split st <= size content)%N /\ P (size content) st /\
    SplitProse_atoms content t
    = Ok (p_atoms st ++ remainder content (p_last_split st)).
Proof.
  intros Hstep H0.
  destruct (prose_loop_inv content t (prose_MAX t) P Hstep
              (length content) 0%N prose_init) as (st & E & Hls & HP);
    try (unfold size; cbn; lia); auto.
  exists st. repeat split; auto.
  unfold SplitProse_atoms, remainder. rewrite E. cbn [bind].
  destruct (N.ltb_spec (p_last_split st) (size content)).
  - rewrite substr_from_ok by lia. reflexivity.
  - now rewrite app_nil_r.
Qed.

Lemma SplitProse_atoms_returns content t :
  exists st,
    (p_last_split st <= size content)%N /\
    SplitProse_atoms content t
    = Ok (p_atoms st ++ remainder content (p_last_split st)).
Proof.
  destruct (SplitProse_atoms_inv content t (fun _ _ => True))
    as (st & ? & ? & _ & ?); eauto.
Qed.

(** ** The bracket depth as a function of the bytes scanned *)

Lemma firstn_succ_at (content : list ascii) (i : N) :
  (i < size content)%N ->
  firstn (N.to_nat (i + 1)) content
  = firstn (N.to_nat i) content ++ [at_ content i].
Proof.
  intros Hi.
  pose proof (slice_last content 0 i ltac:(lia)) as H.
  unfold slice in H. cbn [N.to_nat skipn] in H.
  replace (0 + i)%N with i in H by lia. exact H.
Qed.

Lemma depth_after_succ content i :
  (i < size content)%N ->
  depth_after content (i + 1) = update_depth (at_ content i) (depth_after content i).
Proof.
  intros Hi. unfold depth_after.
  now rewrite firstn_succ_at, fold_left_app by assumption.
Qed.

(** ** What every atom of SplitCode is *)

Lemma NoDup_snoc_index (l : list atom) (a : atom) (i : N) :
  NoDup (map a_index l) -> Forall (fun a => (a_index a < i)%N) l ->
  a_index a = i -> NoDup (map a_index (l ++ [a])).
Proof.
  intros Hnd Hlt Ha. rewrite map_app. cbn [map].
  apply NoDup_app; auto.
  - constructor; [intros []|constructor].
  - intros x Hx [<-|[]]. apply in_map_iff in Hx.
    destruct Hx as (y & Hy & Hin). rewrite Forall_forall in Hlt.
    specialize (Hlt y Hin). lia.
Qed.

Lemma Forall_index_snoc (l : list atom) (a : atom) (i : N) :
  Forall (fun a => (a_index a < i)%N) l -> a_index a = i ->
  Forall (fun a => (a_index a < i + 1)%N) (l ++ [a]).
Proof.
  intros Hlt Ha. apply Forall_app. split.
  - eapply Forall_impl; [|exact Hlt]. cbn. intros; lia.
  - constructor; [lia|constructor].
Qed.

Lemma code_inv_step content MIN_SIZE MAX_SIZE i st st' :
  (i < size content)%N -> (last_split st <= i)%N ->
  code_inv content MIN_SIZE MAX_SIZE i st ->
  depth st' = update_depth (at_ content i) (depth st) ->
  code_step content MIN_SIZE MAX_SIZE i st st' ->
  code_inv content MIN_SIZE MAX_SIZE (i + 1) st'.
Proof.
  intros Hi Hls (Hrun & Hdep & Hok & Hlt & Hnd) Hupd Hs. unfold code_inv.
  assert (Hdep' : depth st' = depth_after content (i + 1))
    by (rewrite depth_after_succ, <- Hdep by assumption; exact Hupd).
  destruct Hs as [HM Hl Ha | Hnl Hd Hm Hl Ha | b HM Hb Hnl Hl Ha | HM Hl Ha];
    rewrite Hl, Ha.
  - repeat split; auto; try lia.
    eapply Forall_impl; [|exact Hlt]. cbn. intros; lia.
  - repeat split; try lia.
    + apply Forall_app. split; auto. constructor; [|constructor].
      unfold code_atom_ok, run_of. cbn. repeat split; auto; lia.
    + apply Forall_index_snoc; auto.
    + eapply NoDup_snoc_index; eauto.
  - repeat split; try lia.
    + apply Forall_app. split; auto. constructor; [|constructor].
      unfold code_atom_ok, run_of. cbn. repeat split; auto; try lia.
      exists b. repeat split; auto; lia.
    + apply Forall_index_snoc; auto.
    + eapply NoDup_snoc_index; eauto.
  - repeat split; try lia.
    + apply Forall_app. split; auto. constructor; [|constructor].
      unfold code_atom_ok, run_of. cbn. repeat split; auto; lia.
    + apply Forall_index_snoc; auto.
    + eapply NoDup_snoc_index; eauto.
Qed.

(** SplitCode returns, and all its atoms are as [code_atom_ok] says, at
    most one per iteration. *)
Lemma SplitCode_atoms_ok content t :
  exists l,
    SplitCode_atoms content t = Ok l /\
    Forall (code_atom_ok content (code_MIN t) (code_MAX t)) l /\
    NoDup (map a_index l) /\
    (content <> [] -> l <> []).
Proof.
  destruct (SplitCode_atoms_inv content t
              (fun i st => code_inv content (code_MIN t) (code_MAX t) i st /\
                           (last_split st = 0%N \/ atoms st <> [])))
    as (st & _ & Hls & ((Hrun & Hdep & Hok & Hlt & Hnd) & Hne) & E).
  - intros i st st' Hi Hls [Hinv Hne] Hd Hs. split.
    + eapply code_inv_step; eauto.
    + destruct Hs as [? Hl Ha | ? ? ? ? Ha | b ? ? ? ? Ha | ? ? Ha];
        rewrite ?Hl, Ha; auto; right; intros Habs;
        now apply app_eq_nil in Habs as [_ ?].
  - split; [|now left]. unfold code_inv. cbn.
    repeat split; try constructor. lia.
  - exists (atoms st ++ remainder content (last_split st)).
    split; [exact E|]. unfold remainder.
    destruct (N.ltb_spec (last_split st) (size content)) as [Hr|Hr].
    + repeat split.
      * apply Forall_app. split; auto. constructor; [|constructor].
        unfold code_atom_ok, run_of. cbn. repeat split; auto; lia.
      * eapply NoDup_snoc_index; eauto.
      * intros _ Habs. now apply app_eq_nil in Habs as [_ ?].
    + rewrite app_nil_r. repeat split; auto.
      intros Hc. destruct Hne as [H0|]; auto.
      destruct content; [congruence|]. unfold size in Hr. cbn in Hr. lia.
Qed.

(** ** What every atom of SplitProse is *)

Lemma chained_snoc l : forall s e a,
  chained s l e -> a_start a = e ->
  chained s (l ++ [a]) (e + N.of_nat (length (a_text a)))%N.
Proof.
  induction l as [|x l IH]; intros s e a Hc Ha; cbn in *.
  - subst. auto.
  - destruct Hc as [Hx Hc]. split; auto.
Qed.

Lemma chained_next pre : forall s e a b post,
  chained s (pre ++ a :: b :: post) e ->
  a_start b = (a_start a + N.of_nat (length (a_text a)))%N.
Proof.
  induction pre as [|x pre IH]; intros s e a b post Hc; cbn in *.
  - destruct Hc as [Ha [Hb _]]. now subst.
  - destruct Hc as [_ Hc]. eapply IH; eauto.
Qed.

Lemma prose_inv_step content TARGET_SIZE MAX_SIZE i st i' st' :
  (i < size content)%N -> (p_last_split st <= i)%N ->
  prose_inv content TARGET_SIZE MAX_SIZE i st ->
  prose_step content TARGET_SIZE MAX_SIZE i st i' st' ->
  prose_inv content TARGET_SIZE MAX_SIZE (i' + 1) st'.
Proof.
  intros Hi Hls (Hrun & Hok & Hch & Hcat & Hne) Hs. unfold prose_inv.
  destruct Hs as [H -> -> | Ht Hb Hi' ->].
  - repeat split; auto. lia.
  - destruct (cut_len_bound content i st Hls Hi) as [Hc1 Hc2].
    cbn [p_last_split p_atoms].
    set (n := prose_cut_len content (p_last_split st) i) in *.
    repeat split.
    + lia.
    + apply Forall_app. split; auto. constructor; [|constructor].
      unfold prose_atom_ok, run_of. cbn. fold n. repeat split; auto; lia.
    + pose proof (chained_snoc (p_atoms st) 0 (p_last_split st)
                    (mkAtom (slice content (p_last_split st) n) ProseCut
                       (p_last_split st) i) Hch eq_refl) as Hsn.
      cbn [a_text] in Hsn. rewrite slice_length in Hsn by lia. exact Hsn.
    + unfold texts in *. rewrite map_app, concat_app, Hcat. cbn.
      rewrite app_nil_r. apply firstn_slice.
    + right. intros Habs. now apply app_eq_nil in Habs as [_ ?].
Qed.

(** SplitProse returns; its atoms are as [prose_atom_ok] says, they tile
    the input, and their concatenation is the input. *)
Lemma SplitProse_atoms_ok content t :
  exists l,
    SplitProse_atoms content t = Ok l /\
    Forall (prose_atom_ok content t (prose_MAX t)) l /\
    chained 0 l (size content) /\
    concat (texts l) = content /\
    (content <> [] -> l <> []).
Proof.
  destruct (SplitProse_atoms_inv content t (prose_inv content t (prose_MAX t)))
    as (st & _ & Hls & (Hrun & Hok & Hch & Hcat & Hne) & E).
  - intros. eapply prose_inv_step; eauto.
  - unfold prose_inv. cbn. repeat split; auto; lia.
  - exists (p_atoms st ++ remainder content (p_last_split st)).
    split; [exact E|]. unfold remainder.
    destruct (N.ltb_spec (p_last_split st) (size content)) as [Hr|Hr].
    + repeat split.
      * apply Forall_app. split; auto. constructor; [|constructor].
        unfold prose_atom_ok, run_of. cbn. repeat split; auto; lia.
      * pose proof (chained_snoc (p_atoms st) 0 (p_last_split st)
                      (mkAtom (skipn (N.to_nat (p_last_split st)) content)
                         Remainder (p_last_split st) (size content))
                      Hch eq_refl) as Hsn.
        cbn [a_text] in Hsn. rewrite length_skipn in Hsn.
        replace (p_last_split st
                 + N.of_nat (length content - N.to_nat (p_last_split st)))%N
          with (size content) in Hsn by (unfold size in *; lia).
        exact Hsn.
      * unfold texts in *. rewrite map_app, concat_app, Hcat. cbn.
        rewrite app_nil_r. apply firstn_skipn.
      * intros _ Habs. now apply app_eq_nil in Habs as [_ ?].
    + rewrite app_nil_r. assert (p_last_split st = size content) as Heq by lia.
      repeat split; auto.
      * now rewrite <- Heq.
      * rewrite Hcat, Heq. unfold size. rewrite Nat2N.id. apply firstn_all.
      * intros Hc. destruct Hne as [H0|]; auto.
        destruct content; [congruence|]. unfold size in Hr. cbn in Hr. lia.
Qed.

(** Without overflow the two ceilings are the products themselves. *)
Lemma code_MAX_exact t : (t * 2 < 2 ^ 64)%N -> code_MAX t = (t * 2)%N.
Proof. intros H. unfold code_MAX, wrap_size. now apply N.mod_small. Qed.

Lemma prose_MAX_exact t : (t * 3 < 2 ^ 64)%N -> prose_MAX t = (t * 3)%N.
Proof. intros H. unfold prose_MAX, wrap_size. now apply N.mod_small. Qed.

(** SplitCode reproduces its input whenever no forced split fires: the
    soft split and the split at a newline found backwards both keep every
    byte. *)
Lemma SplitCode_concat_unless_forced content t :
  exists l,
    SplitCode_atoms content t = Ok l /\
    (Forall (fun a => a_cause a <> HardForced) l ->
     concat (texts l) = content).
Proof.
  destruct (SplitCode_atoms_inv content t
              (fun _ st =>
                 Forall (fun a => a_cause a <> HardForced) (atoms st) ->
                 concat (texts (atoms st))
                 = firstn (N.to_nat (last_split st)) content))
    as (st & _ & Hls & HP & E).
  - intros i st st' Hi Hls HP _ Hs.
    destruct Hs as [_ Hl Ha | _ _ _ Hl Ha | b _ Hb _ Hl Ha | _ Hl Ha];
      rewrite Hl, Ha; auto; intros Hall; apply Forall_app in Hall as [Hall Hlast];
      unfold texts; rewrite map_app, concat_app; fold (texts (atoms st));
      try rewrite (HP Hall); cbn [map a_text concat]; rewrite ?app_nil_r.
    + rewrite firstn_slice. f_equal. lia.
    + rewrite firstn_slice. f_equal. lia.
    + inversion Hlast as [|? ? Hc _]. now contradiction Hc.
  - reflexivity.
  - exists (atoms st ++ remainder content (last_split st)).
    split; [exact E|]. intros Hall. apply Forall_app in Hall as [Hall _].
    unfold texts. rewrite map_app, concat_app. fold (texts (atoms st)).
    rewrite (HP Hall). unfold remainder.
    destruct (N.ltb_spec (last_split st) (size content)) as [Hr|Hr];
      cbn [map a_text concat]; rewrite app_nil_r.
    + apply firstn_skipn.
    + apply firstn_all2. unfold size in Hr. lia.
Qed.

(** ** Claims *)

Lemma wrap_size_le n : (wrap_size n <= n)%N.
Proof. unfold wrap_size. apply N.Div0.mod_le. Qed.

Lemma SplitCode_texts content t l :
  SplitCode_atoms content t = Ok l -> SplitCode content t = Ok (texts l).
Proof. unfold SplitCode, fmap. now intros ->. Qed.

Lemma SplitProse_texts content t l :
  SplitProse_atoms content t = Ok l -> SplitProse content t = Ok (texts l).
Proof. unfold SplitProse, fmap. now intros ->. Qed.

Lemma Atomize_code content t : Atomize content "code" t = SplitCode content t.
Proof. reflexivity. Qed.

Lemma Atomize_other content strategy t :
  strategy <> "code"%string ->
  Atomize content strategy t = SplitProse content t.
Proof.
  intros H. unfold Atomize.
  destruct (String.eqb_spec strategy "code"); [contradiction | reflexivity].
Qed.

(** Atomize = one of the two splitters, whose atoms are known. *)
Lemma Atomize_atoms content strategy t :
  exists l,
    Atomize content strategy t = Ok (texts l) /\
    (content <> [] -> l <> []) /\
    ((strategy = "code"%string /\ SplitCode_atoms content t = Ok l /\
      Forall (code_atom_ok content (code_MIN t) (code_MAX t)) l)
     \/
     (strategy <> "code"%string /\ SplitProse_atoms content t = Ok l /\
      Forall (prose_atom_ok content t (prose_MAX t)) l /\
      concat (texts l) = content)).
Proof.
  unfold Atomize. destruct (String.eqb_spec strategy "code") as [Hs|Hs].
  - destruct (SplitCode_atoms_ok content t) as (l & E & Hok & _ & Hne).
    exists l. split; [now apply SplitCode_texts|]. split; [exact Hne|].
    left. repeat split; assumption.
  - destruct (SplitProse_atoms_ok content t) as (l & E & Hok & _ & Hcat & Hne).
    exists l. split; [now apply SplitProse_texts|]. split; [exact Hne|].
    right. repeat split; assumption.
Qed.

Lemma code_atom_length content MIN_SIZE MAX_SIZE a :
  code_atom_ok content MIN_SIZE MAX_SIZE a ->
  (size (a_text a) <= MAX_SIZE + 1)%N /\
  ((1 <= MAX_SIZE)%N -> a_text a <> []).
Proof.
  unfold code_atom_ok, run_of. intros (Hs & Hrun & H).
  assert (Hlen : forall n, (a_start a + n <= size content)%N ->
                           a_text a = slice content (a_start a) n ->
                           size (a_text a) = n).
  { intros n Hn ->. now apply slice_length. }
  assert (Hnil : (1 <= size (a_text a))%N -> a_text a <> [])
    by (intros H1 E; rewrite E in H1; cbn in H1; lia).
  destruct (a_cause a).
  - destruct H as (Hi & _ & _ & _ & Hm & Ht).
    apply Hlen in Ht; [|lia]. split; [lia|]. intros; apply Hnil; lia.
  - destruct H as (Hi & HM & b & Hb & _ & Ht).
    apply Hlen in Ht; [|lia]. split; [lia|]. intros; apply Hnil; lia.
  - destruct H as (Hi & HM & Ht).
    apply Hlen in Ht; [|lia]. split; [lia|]. intros; apply Hnil; lia.
  - contradiction.
  - destruct H as (Hi & Hlt & Ht).
    assert (size (a_text a) = size content - a_start a)%N as E
      by (rewrite Ht; unfold size; rewrite length_skipn; lia).
    rewrite E in *. split; [lia|]. intros; apply Hnil; lia.
Qed.

Lemma prose_atom_length content TARGET_SIZE MAX_SIZE a :
  prose_atom_ok content TARGET_SIZE MAX_SIZE a ->
  (size (a_text a) <= N.max TARGET_SIZE MAX_SIZE + 2)%N /\ a_text a <> [].
Proof.
  unfold prose_atom_ok, run_of. intros (Hs & Hrun & H).
  assert (Hnil : (1 <= size (a_text a))%N -> a_text a <> [])
    by (intros H1 E; rewrite E in H1; cbn in H1; lia).
  destruct (a_cause a); try contradiction.
  - destruct H as (Hi & Ht & _ & Htx & Hle).
    assert (size (a_text a) = prose_cut_len content (a_start a) (a_index a)) as E
      by (rewrite Htx; now apply slice_length).
    rewrite E in *. unfold prose_cut_len in *.
    destruct (eats_second_newline content (a_index a));
      (split; [lia | apply Hnil; lia]).
  - destruct H as (Hi & Hlt & Ht).
    assert (size (a_text a) = size content - a_start a)%N as E
      by (rewrite Ht; unfold size; rewrite length_skipn; lia).
    rewrite E in *. split; [lia | apply Hnil; lia].
Qed.

(** Atomize signals no error, whatever its arguments. *)
Lemma Atomize_returns content strategy t :
  exists chunks, Atomize content strategy t = Ok chunks.
Proof.
  destruct (Atomize_atoms content strategy t) as (l & E & _). eauto.
Qed.

Lemma code_MAX_nonzero t :
  (1 <= t)%N -> (t < 2 ^ 64)%N -> t <> (2 ^ 63)%N -> code_MAX t <> 0%N.
Proof.
  unfold code_MAX, wrap_size. intros H1 H2 H3.
  change (2 ^ 64)%N with 18446744073709551616%N in *.
  change (2 ^ 63)%N with 9223372036854775808%N in *.
  destruct (N.lt_ge_cases t 9223372036854775808) as [Hlt|Hge].
  - rewrite N.mod_small by lia. lia.
  - assert (E : (t * 2 = 1 * 18446744073709551616 + (t * 2 - 18446744073709551616))%N)
      by lia.
    rewrite E, N.add_comm, N.Div0.mod_add, N.mod_small by lia. lia.
Qed.

(** C1. The claim: for every input, strategy label and positive targetSize,
    the chunks of Atomize concatenate to the input.  The code breaks it:
    the forced split of SplitCode (lines 64-65) emits the [current_len]
    bytes before index [i] and moves [last_split] to [i + 1], so the byte at
    [i] is in no chunk.  On "abcd" with targetSize 1 the chunks are "ab" and
    "d". *)
Theorem SplitCode_forced_split_drops_byte :
  Atomize (bytes "abcd") "code" 1 = Ok [bytes "ab"; bytes "d"] /\
  concat [bytes "ab"; bytes "d"] <> bytes "abcd".
Proof. split; [vm_compute; reflexivity | discriminate]. Qed.

(** Scenarios A and B of the spec. *)
Example scenario_A :
  Atomize (bytes "a" ++ [newline] ++ bytes "b" ++ [newline]) "code" 1
  = Ok [bytes "a" ++ [newline]; bytes "b" ++ [newline]].
Proof. vm_compute. reflexivity. Qed.

Example scenario_B :
  Atomize (bytes "Hello world. This is a test.") "prose" 28
  = Ok [bytes "Hello world. This is a test."].
Proof. vm_compute. reflexivity. Qed.

(** The prose splitter does cover its input. *)
Lemma SplitProse_concat content t :
  returns_chunks (SplitProse content t) (fun chunks => concat chunks = content).
Proof.
  destruct (SplitProse_atoms_ok content t) as (l & E & _ & _ & Hcat & _).
  exists (texts l). split; [now apply SplitProse_texts | exact Hcat].
Qed.

(** C2, as amended.  For every input, strategy label and positive
    targetSize, every chunk of Atomize has at most [targetSize * 2 + 1]
    bytes under "code" and at most [targetSize * 3 + 2] bytes under any
    other label. *)
Theorem Atomize_chunk_bound content strategy t :
  (0 < t)%N ->
  returns_chunks (Atomize content strategy t)
    (Forall (fun c => (size c <= hard_ceiling strategy t + overshoot strategy)%N)).
Proof.
  intros _. unfold hard_ceiling, overshoot.
  destruct (Atomize_atoms content strategy t)
    as (l & E & _ & [(Hs & _ & Hok) | (Hs & _ & Hok & _)]).
  - exists (texts l). split; [exact E|]. subst strategy. cbn.
    apply Forall_map. eapply Forall_impl; [|exact Hok].
    intros a Ha. apply code_atom_length in Ha as [Ha _].
    pose proof (wrap_size_le (t * 2)). unfold code_MAX in Ha. lia.
  - exists (texts l). split; [exact E|].
    destruct (String.eqb_spec strategy "code"); [contradiction|].
    apply Forall_map. eapply Forall_impl; [|exact Hok].
    intros a Ha. apply prose_atom_length in Ha as [Ha _].
    pose proof (wrap_size_le (t * 3)). unfold prose_MAX in Ha. lia.
Qed.

Lemma Atomize_chunk_bound_witness :
  (0 < 1)%N /\
  returns_chunks (Atomize (bytes "ab" ++ [newline]) "code" 1)
    (Forall (fun c => (size c <= 3)%N)).
Proof.
  split; [reflexivity|].
  exact (Atomize_chunk_bound (bytes "ab" ++ [newline]) "code" 1 eq_refl).
Defined.

(** C2, as stated, fails: "ab\n" under "code" with targetSize 1 is one chunk
    of 3 bytes (the soft split fires at run = MAX = 2 and includes the
    newline), and "abcd" under "prose" with targetSize 1 is one chunk of 4
    bytes (cut at run = MAX = 3, trigger byte included). *)
Lemma Atomize_chunk_exceeds_hard_ceiling :
  ~ returns_chunks (Atomize (bytes "ab" ++ [newline]) "code" 1)
      (Forall (fun c => (size c <= hard_ceiling "code" 1)%N)) /\
  ~ returns_chunks (Atomize (bytes "abcd") "prose" 1)
      (Forall (fun c => (size c <= hard_ceiling "prose" 1)%N)).
Proof.
  split; intros (chunks & E & H); vm_compute in E; injection E as <-;
    inversion H as [|? ? Hc _]; vm_compute in Hc; now apply Hc.
Qed.

(** C3.  For every strategy label and positive targetSize, Atomize returns
    no chunk on the empty input and at least one chunk on any other. *)
Theorem Atomize_nondegenerate content strategy t :
  (0 < t)%N ->
  returns_chunks (Atomize content strategy t)
    (fun chunks => (content = [] -> chunks = []) /\
                   (content <> [] -> chunks <> [])).
Proof.
  intros _. destruct content as [|c content].
  - exists []. split.
    + unfold Atomize. now destruct (strategy =? "code")%string.
    + split; [reflexivity | congruence].
  - destruct (Atomize_atoms (c :: content) strategy t) as (l & E & Hne & _).
    exists (texts l). split; [exact E|]. split; [discriminate|].
    intros _ Habs. apply map_eq_nil in Habs. now apply Hne.
Qed.

Lemma Atomize_nondegenerate_witness :
  (0 < 512)%N /\
  returns_chunks (Atomize (bytes "x") "prose" 512)
    (fun chunks => (bytes "x" = [] -> chunks = []) /\
                   (bytes "x" <> [] -> chunks <> [])).
Proof.
  split; [reflexivity|].
  exact (Atomize_nondegenerate (bytes "x") "prose" 512 eq_refl).
Defined.

(** Atomize rejects nothing: for every input, strategy label and
    targetSize, 0 included, it returns a chunk sequence and signals no
    error. *)
Lemma Atomize_never_rejects content strategy t :
  returns_chunks (Atomize content strategy t) (fun _ => True) /\
  ~ rejected (Atomize content strategy t).
Proof.
  destruct (Atomize_returns content strategy t) as (chunks & E).
  split; [exists chunks; auto|]. intros (e & He). congruence.
Qed.

(** Nor does the binding look at the number it is given: whatever [n] is,
    it converts it to [size_t], calls Atomize and returns the strings made
    of its chunks. *)
Lemma AtomizeWrapped_number {J} (String_New : list ascii -> J)
    input strategy n rest :
  AtomizeWrapped String_New
    (JsString input :: JsString strategy :: JsNumber n :: rest)
  = fmap (map String_New)
      (Atomize (bytes input) strategy (size_t_of_int64 n)) /\
  ~ rejected
      (AtomizeWrapped String_New
         (JsString input :: JsString strategy :: JsNumber n :: rest)).
Proof.
  split; [reflexivity|].
  unfold AtomizeWrapped. cbn [nth_error].
  destruct (Atomize_returns (bytes input) strategy (size_t_of_int64 n))
    as (chunks & E).
  rewrite E. intros (e & He). discriminate.
Qed.

(** C8.  The claim: a call of Atomize with a non-positive targetSize is
    rejected with an invalid-argument condition.  The code has no such
    check.  With targetSize 0 Atomize goes on with [MAX_SIZE = 0] and, under
    "code", returns one empty chunk per input byte; through the binding a
    targetSize of -1 becomes [2^64 - 1] and the whole input comes back as
    one chunk (as the string that [String_New] makes of it, whatever the
    conversion is).  The binding does reject a call without a string
    ([TypeError]), so the condition exists for the first argument and is
    missing for the third. *)
Theorem Atomize_accepts_nonpositive_targetSize
    {J} (String_New : list ascii -> J) :
  Atomize (bytes "ab") "code" 0 = Ok [[]; []] /\
  ~ rejected (Atomize (bytes "ab") "code" 0) /\
  AtomizeWrapped String_New [JsString "ab"; JsString "code"; JsNumber (-1)]
  = fmap (map String_New) (Atomize (bytes "ab") "code" (2 ^ 64 - 1)) /\
  AtomizeWrapped String_New [JsString "ab"; JsString "code"; JsNumber (-1)]
  = Ok [String_New (bytes "ab")] /\
  AtomizeWrapped String_New [JsNumber 7] = Throw TypeError.
Proof.
  split; [vm_compute; reflexivity|].
  split; [apply Atomize_never_rejects|].
  assert (E : Atomize (bytes "ab") "code" (2 ^ 64 - 1) = Ok [bytes "ab"])
    by (vm_compute; reflexivity).
  split; [reflexivity|].
  split; [|reflexivity].
  unfold AtomizeWrapped. cbn [nth_error].
  change (size_t_of_int64 (-1)) with (2 ^ 64 - 1)%N.
  rewrite E. reflexivity.
Qed.

(** C9.  The label "code" runs SplitCode, any other label runs SplitProse
    ("prose", the default of the binding, among them), and no label makes
    Atomize signal an error. *)
Theorem Atomize_dispatch content strategy t :
  (0 < t)%N ->
  (strategy = "code"%string -> Atomize content strategy t = SplitCode content t) /\
  (strategy <> "code"%string -> Atomize content strategy t = SplitProse content t) /\
  Atomize content "prose" t = SplitProse content t /\
  returns_chunks (Atomize content strategy t) (fun _ => True).
Proof.
  intros _. repeat split.
  - intros ->. apply Atomize_code.
  - apply Atomize_other.
  - apply (proj1 (Atomize_never_rejects content strategy t)).
Qed.

Lemma Atomize_dispatch_witness :
  (0 < 512)%N /\ "markdown"%string <> "code"%string /\
  Atomize (bytes "Hi. Yo") "markdown" 512 = SplitProse (bytes "Hi. Yo") 512.
Proof.
  split; [reflexivity|]. split; [discriminate|].
  apply (proj1 (proj2 (Atomize_dispatch (bytes "Hi. Yo") "markdown" 512 eq_refl))).
  discriminate.
Defined.

(** For every input and every targetSize from 1 to [2^64 - 1], every chunk
    of Atomize is non-empty, except that under "code" the targetSize must
    not be [2^63] (whose double is 0 in [size_t] arithmetic). *)
Lemma Atomize_chunks_nonempty content strategy t :
  (1 <= t)%N -> (t < 2 ^ 64)%N ->
  (strategy = "code"%string -> t <> (2 ^ 63)%N) ->
  returns_chunks (Atomize content strategy t) (Forall (fun c => c <> [])).
Proof.
  intros H1 H2 H3.
  destruct (Atomize_atoms content strategy t)
    as (l & E & _ & [(Hs & _ & Hok) | (Hs & _ & Hok & _)]);
    exists (texts l); (split; [exact E|]);
    apply Forall_map; (eapply Forall_impl; [|exact Hok]); intros a Ha.
  - apply code_atom_length in Ha as [_ Ha]. apply Ha.
    pose proof (code_MAX_nonzero t H1 H2 (H3 Hs)). lia.
  - now apply prose_atom_length in Ha as [_ Ha].
Qed.

Lemma Atomize_chunks_nonempty_witness :
  (1 <= 1)%N /\ (1 < 2 ^ 64)%N /\
  returns_chunks (Atomize (bytes "abcd") "code" 1) (Forall (fun c => c <> [])).
Proof.
  split; [discriminate|]. split; [reflexivity|].
  apply (Atomize_chunks_nonempty (bytes "abcd") "code" 1).
  - discriminate.
  - reflexivity.
  - discriminate.
Defined.

(** C10.  The claim: for every targetSize of at least 1, no chunk of
    Atomize is empty.  The code breaks it at targetSize [2^63]:
    [maxChunkSize * 2] is 0 in [size_t] arithmetic, the hard limit test
    [current_len >= MAX_SIZE] holds on the first byte with a run of 0, and
    the forced split pushes [substr(last_split, 0)].  The remainder is
    guarded against being empty (line 71), the forced split is not. *)
Theorem Atomize_empty_chunk :
  Atomize (bytes "a") "code" (2 ^ 63) = Ok [[]] /\
  ~ returns_chunks (Atomize (bytes "a") "code" (2 ^ 63))
      (Forall (fun c => c <> [])).
Proof.
  split; [vm_compute; reflexivity|].
  intros (chunks & E & H). vm_compute in E. injection E as <-.
  inversion H as [|? ? Hc _]. now apply Hc.
Qed.

Lemma is_boundary_cases content i :
  is_boundary content i = true ->
  (eats_second_newline content i = true /\
   at_ content i = newline /\ (i + 1 < size content)%N /\
   at_ content (i + 1) = newline)
  \/
  (eats_second_newline content i = false /\
   is_terminator (at_ content i) = true /\ (i + 1 < size content)%N /\
   (at_ content (i + 1) = " "%char \/ at_ content (i + 1) = newline)).
Proof.
  unfold is_boundary, eats_second_newline.
  destruct (Ascii.eqb_spec (at_ content i) newline) as [Hnl|Hnl]; cbn [andb].
  - intros H. left. rewrite H. apply andb_true_iff in H as [H1 H2].
    apply N.ltb_lt in H1. apply Ascii.eqb_eq in H2. auto.
  - destruct (is_terminator (at_ content i)); [|discriminate].
    intros H. right. apply andb_true_iff in H as [H1 H2].
    apply N.ltb_lt in H1. apply orb_true_iff in H2.
    rewrite !Ascii.eqb_eq in H2. auto.
Qed.

(** C4.  Under "code", every soft split is at a newline byte, with the depth
    counter at 0 there and a run longer than [MIN = targetSize / 2]; its
    chunk is the run followed by that newline; and an iteration whose soft
    test holds pushes that one chunk and goes on to the next byte whatever
    [MAX_SIZE] is: no two atoms come from one iteration. *)
Theorem SplitCode_soft_split content t :
  (0 < t)%N ->
  (exists l,
      SplitCode_atoms content t = Ok l /\
      Atomize content "code" t = Ok (texts l) /\
      NoDup (map a_index l) /\
      Forall (fun a => forall d, a_cause a = Soft d ->
                at_ content (a_index a) = newline /\
                d = 0%Z /\ depth_after content (a_index a + 1) = 0%Z /\
                (code_MIN t < run_of a)%N /\
                a_text a = slice content (a_start a) (run_of a) ++ [newline] /\
                (a_start a + size (a_text a) = a_index a + 1)%N) l) /\
  (forall MAX_SIZE i st,
      (last_split st <= i)%N -> (i < size content)%N ->
      at_ content i = newline ->
      update_depth (at_ content i) (depth st) = 0%Z ->
      (code_MIN t < i - last_split st)%N ->
      code_body content (code_MIN t) MAX_SIZE i st
      = Ok (mkCode 0 (i + 1)
              (atoms st ++
               [mkAtom (slice content (last_split st) (i - last_split st + 1))
                  (Soft 0) (last_split st) i]))).
Proof.
  intros _. split.
  - destruct (SplitCode_atoms_ok content t) as (l & E & Hok & Hnd & _).
    exists l. split; [exact E|]. split; [now apply SplitCode_texts|].
    split; [exact Hnd|].
    eapply Forall_impl; [|exact Hok].
    intros a (Hs & Hrun & H) d Hd. rewrite Hd in H.
    destruct H as (Hi & H0 & Hdep & Hnl & Hm & Ht). unfold run_of in *.
    assert (Ht' : a_text a
                  = slice content (a_start a) (a_index a - a_start a) ++ [newline]).
    { rewrite Ht, slice_last by lia.
      replace (a_start a + (a_index a - a_start a))%N with (a_index a) by lia.
      now rewrite Hnl. }
    repeat split; auto; try congruence.
    rewrite Ht. unfold size at 1. rewrite slice_length by lia. lia.
  - intros MAX_SIZE i st Hls Hi Hnl Hd Hm. unfold code_body.
    rewrite Hd, Hnl, Ascii.eqb_refl. cbn [andb Z.eqb].
    destruct (N.ltb_spec (code_MIN t) (i - last_split st)); [|lia].
    now rewrite substr_ok by lia.
Qed.

Lemma SplitCode_soft_split_witness :
  (0 < 1)%N /\
  exists l,
    SplitCode_atoms (bytes "a" ++ [newline] ++ bytes "b" ++ [newline]) 1 = Ok l /\
    NoDup (map a_index l) /\
    Forall (fun a => forall d, a_cause a = Soft d -> d = 0%Z) l.
Proof.
  split; [reflexivity|].
  destruct (proj1 (SplitCode_soft_split
                     (bytes "a" ++ [newline] ++ bytes "b" ++ [newline]) 1 eq_refl))
    as (l & E & _ & Hnd & Hall).
  exists l. split; [exact E|]. split; [exact Hnd|].
  eapply Forall_impl; [|exact Hall].
  intros a H d Hd. exact (proj1 (proj2 (H d Hd))).
Defined.

(** C5.  Under the prose strategy, every chunk other than the final
    remainder that was cut with a run below [MAX] stops right after a
    detected boundary ([ends_after_boundary]). *)
Theorem SplitProse_boundary_invariant content t :
  (0 < t)%N ->
  exists l,
    SplitProse_atoms content t = Ok l /\
    (forall strategy, strategy <> "code"%string ->
                      Atomize content strategy t = Ok (texts l)) /\
    Forall (fun a => a_cause a <> Remainder ->
                     (run_of a < prose_MAX t)%N ->
                     ends_after_boundary content a) l.
Proof.
  intros _.
  destruct (SplitProse_atoms_ok content t) as (l & E & Hok & _).
  exists l. split; [exact E|].
  split; [intros s Hs; rewrite Atomize_other by exact Hs;
          now apply SplitProse_texts|].
  eapply Forall_impl; [|exact Hok].
  intros a (Hs & Hrun & H) Hnr Hlt. unfold ends_after_boundary.
  destruct (a_cause a); try contradiction; try congruence.
  destruct H as (Hi & Ht & [Hb|HM] & Htx & Hle); [|lia].
  assert (Hsz : size (a_text a)
                = prose_cut_len content (a_start a) (a_index a)).
  { rewrite Htx at 1. now apply slice_length. }
  rewrite Hsz. split; [exact Htx|].
  unfold prose_cut_len, run_of in *.
  destruct (is_boundary_cases content (a_index a) Hb)
    as [(He & Hc & Hn & Hc') | (He & Hc & Hn & Hc')]; rewrite He in *.
  - right.
    replace (a_start a + (a_index a - a_start a + 1 + 1) - 2)%N
      with (a_index a) by lia.
    replace (a_start a + (a_index a - a_start a + 1 + 1) - 1)%N
      with (a_index a + 1)%N by lia.
    repeat split; auto; lia.
  - left.
    replace (a_start a + (a_index a - a_start a + 1) - 1)%N
      with (a_index a) by lia.
    replace (a_start a + (a_index a - a_start a + 1))%N
      with (a_index a + 1)%N by lia.
    repeat split; auto; lia.
Qed.

Lemma SplitProse_boundary_invariant_witness :
  (0 < 2)%N /\
  exists l,
    SplitProse_atoms (bytes "Hi. Yo") 2 = Ok l /\
    Forall (fun a => a_cause a <> Remainder -> (run_of a < prose_MAX 2)%N ->
                     ends_after_boundary (bytes "Hi. Yo") a) l.
Proof.
  split; [reflexivity|].
  destruct (SplitProse_boundary_invariant (bytes "Hi. Yo") 2 eq_refl)
    as (l & E & _ & H).
  exists l. split; [exact E | exact H].
Defined.

(** ** The depth counter *)

Lemma wrap_int_small z :
  (- 2 ^ 31 <= z <= INT_MAX)%Z -> wrap_int z = z.
Proof.
  unfold wrap_int, INT_MAX. intros H.
  rewrite Z.mod_small; lia.
Qed.

Lemma update_depth_floor c d :
  (0 <= d < INT_MAX)%Z ->
  (0 <= update_depth c d <= d + 1)%Z.
Proof.
  intros H. unfold update_depth.
  destruct (c =? "{")%char.
  - rewrite wrap_int_small; unfold INT_MAX in *; lia.
  - destruct (c =? "}")%char; [|lia].
    destruct (Z.ltb_spec 0 d); [|lia].
    rewrite wrap_int_small; unfold INT_MAX in *; lia.
Qed.

Lemma depth_after_bounds content :
  (Z.of_N (size content) <= INT_MAX)%Z ->
  forall k, (k <= length content)%nat ->
            (0 <= depth_after content (N.of_nat k) <= Z.of_nat k)%Z.
Proof.
  intros Hsz. induction k as [|k IH]; intros Hk.
  - cbn. lia.
  - replace (N.of_nat (S k)) with (N.of_nat k + 1)%N by lia.
    rewrite depth_after_succ by (unfold size; lia).
    pose proof (update_depth_floor (at_ content (N.of_nat k))
                  (depth_after content (N.of_nat k))) as H.
    unfold size in Hsz. lia.
Qed.

(** [code_scan content t k] is the state of the whole scan after its first
    [k] iterations. *)
Lemma code_scan_prefix content t k :
  (k <= length content)%nat ->
  code_scan content t (length content)
  = st <- code_scan content t k ;;
    code_loop content (code_MIN t) (code_MAX t) (length content - k)
      (N.of_nat k) st.
Proof.
  intros Hk. unfold code_scan.
  replace (length content) with (k + (length content - k))%nat at 1 by lia.
  now rewrite code_loop_app.
Qed.

(** The counter of the scan is [depth_after]. *)
Lemma code_scan_depth content t k :
  (k <= length content)%nat ->
  exists st, code_scan content t k = Ok st /\
             depth st = depth_after content (N.of_nat k).
Proof.
  intros Hk.
  destruct (code_loop_inv content (code_MIN t) (code_MAX t)
              (fun i st => depth st = depth_after content i))
    with (n := k) (i := 0%N) (st := code_init) as (st & E & _ & Hd).
  - intros i st st' Hi _ Hd Hupd _.
    now rewrite depth_after_succ, <- Hd.
  - unfold size. lia.
  - cbn. lia.
  - reflexivity.
  - exists st. split; [exact E|]. exact Hd.
Qed.

(** On any input of at most [INT_MAX = 2^31 - 1] bytes the depth counter is
    never negative during the scan of SplitCode, which runs to completion:
    a byte moves the counter from a value in [0, INT_MAX) to a value that
    is again at least 0, and '}' leaves a counter of 0 at 0. *)
Lemma depth_never_negative content t :
  (Z.of_N (size content) <= INT_MAX)%Z ->
  (forall k, (k <= length content)%nat ->
     exists st, code_scan content t k = Ok st /\
                depth st = depth_after content (N.of_nat k) /\
                (0 <= depth st)%Z) /\
  returns_chunks (SplitCode content t) (fun _ => True) /\
  (forall c d, (0 <= d < INT_MAX)%Z -> (0 <= update_depth c d)%Z) /\
  update_depth "}" 0 = 0%Z.
Proof.
  intros Hsz. repeat split.
  - intros k Hk. destruct (code_scan_depth content t k Hk) as (st & E & Hd).
    exists st. repeat split; auto. rewrite Hd.
    now apply depth_after_bounds.
  - destruct (SplitCode_atoms_ok content t) as (l & E & _).
    exists (texts l). split; [now apply SplitCode_texts | exact I].
  - intros c d Hd. now apply update_depth_floor.
Qed.

Lemma depth_never_negative_witness :
  (Z.of_N (size (bytes "}")) <= INT_MAX)%Z /\
  exists st, code_scan (bytes "}") 1 1 = Ok st /\ (0 <= depth st)%Z.
Proof.
  split; [discriminate|].
  destruct (proj1 (depth_never_negative (bytes "}") 1 ltac:(discriminate))
              1%nat (le_n 1))
    as (st & E & _ & H).
  exists st. split; [exact E | exact H].
Defined.

(** The counter stays between 0 and the number of '{' read so far, as
    long as that number fits in an [int]. *)
Lemma depth_fold_bounds l : forall d,
  (0 <= d)%Z ->
  (d + Z.of_nat (count_occ ascii_dec l "{"%char) <= INT_MAX)%Z ->
  (0 <= fold_left (fun d c => update_depth c d) l d
   <= d + Z.of_nat (count_occ ascii_dec l "{"%char))%Z.
Proof.
  induction l as [|c l IH]; intros d Hd Hmax; cbn [fold_left count_occ] in *.
  - lia.
  - destruct (ascii_dec c "{") as [->|Hc].
    + assert (E : update_depth "{" d = (d + 1)%Z).
      { unfold update_depth. rewrite Ascii.eqb_refl.
        apply wrap_int_small. unfold INT_MAX in *. lia. }
      rewrite E. specialize (IH (d + 1)%Z). lia.
    + assert (E : (0 <= update_depth c d <= d)%Z).
      { unfold update_depth.
        destruct (Ascii.eqb_spec c "{"); [contradiction|].
        destruct (c =? "}")%char; [|lia].
        destruct (Z.ltb_spec 0 d); [|lia].
        rewrite wrap_int_small; unfold INT_MAX in *; lia. }
      specialize (IH (update_depth c d)). lia.
Qed.

Lemma count_occ_firstn (l : list ascii) c k :
  (count_occ ascii_dec (firstn k l) c <= count_occ ascii_dec l c)%nat.
Proof.
  rewrite <- (firstn_skipn k l) at 2. rewrite count_occ_app. lia.
Qed.

(** C6.  Throughout the scan of SplitCode the depth counter is never
    negative, and SplitCode runs to completion: '{' adds 1 to the counter,
    '}' takes 1 from it only when it is positive and leaves it as it is at
    0, no other byte touches it.  This holds on every input with at most
    [INT_MAX = 2^31 - 1] bytes '{', unbalanced ones and a lone '}'
    included, whatever the other bytes and the length are; beyond that
    number [depth++] would overflow an [int], which C++ leaves undefined. *)
Theorem SplitCode_depth_floored_at_zero content t :
  (Z.of_nat (count_occ ascii_dec content "{"%char) <= INT_MAX)%Z ->
  (forall k, (k <= length content)%nat ->
     exists st, code_scan content t k = Ok st /\
                depth st = depth_after content (N.of_nat k) /\
                (0 <= depth st)%Z) /\
  returns_chunks (SplitCode content t) (fun _ => True) /\
  (forall d, (0 <= d < INT_MAX)%Z -> update_depth "{" d = (d + 1)%Z) /\
  (forall d, (0 < d <= INT_MAX)%Z -> update_depth "}" d = (d - 1)%Z) /\
  (forall d, (d <= 0)%Z -> update_depth "}" d = d) /\
  (forall c d, c <> "{"%char -> c <> "}"%char -> update_depth c d = d).
Proof.
  intros Hmax. repeat split.
  - intros k Hk. destruct (code_scan_depth content t k Hk) as (st & E & Hd).
    exists st. repeat split; auto. rewrite Hd. unfold depth_after.
    rewrite Nat2N.id.
    pose proof (count_occ_firstn content "{"%char k) as Hc.
    apply (depth_fold_bounds (firstn k content) 0%Z); lia.
  - destruct (SplitCode_atoms_ok content t) as (l & E & _).
    exists (texts l). split; [now apply SplitCode_texts | exact I].
  - intros d Hd. unfold update_depth. rewrite Ascii.eqb_refl.
    apply wrap_int_small. unfold INT_MAX in *. lia.
  - intros d Hd. unfold update_depth. cbn [Ascii.eqb Bool.eqb andb].
    destruct (Z.ltb_spec 0 d); [|lia].
    apply wrap_int_small. unfold INT_MAX in *. lia.
  - intros d Hd. unfold update_depth. cbn [Ascii.eqb Bool.eqb andb].
    destruct (Z.ltb_spec 0 d); [lia|reflexivity].
  - intros c d H1 H2. unfold update_depth.
    destruct (Ascii.eqb_spec c "{"); [contradiction|].
    destruct (Ascii.eqb_spec c "}"); [contradiction|]. reflexivity.
Qed.

Lemma SplitCode_depth_floored_at_zero_witness :
  (Z.of_nat (count_occ ascii_dec (bytes "}{}}") "{"%char) <= INT_MAX)%Z /\
  (exists st, code_scan (bytes "}{}}") 1 1 = Ok st /\ (0 <= depth st)%Z) /\
  (exists st, code_scan (bytes "}{}}") 1 4 = Ok st /\ (0 <= depth st)%Z).
Proof.
  assert (H : (Z.of_nat (count_occ ascii_dec (bytes "}{}}") "{"%char)
               <= INT_MAX)%Z) by (vm_compute; discriminate).
  split; [exact H|].
  destruct (SplitCode_depth_floored_at_zero (bytes "}{}}") 1 H) as (Hk & _).
  split.
  - destruct (Hk 1%nat) as (st & E & _ & Hd); [cbn; lia|].
    exists st. split; [exact E | exact Hd].
  - destruct (Hk 4%nat) as (st & E & _ & Hd); [cbn; lia|].
    exists st. split; [exact E | exact Hd].
Defined.

(** ** Paragraph cuts *)

Lemma no_boundary_between_spec content lo hi i :
  no_boundary_between content lo hi = true ->
  (lo <= i < hi)%N -> is_boundary content i = false.
Proof.
  unfold no_boundary_between. intros H Hi.
  rewrite forallb_forall in H. specialize (H (N.to_nat i)).
  rewrite N2Nat.id in H. apply negb_true_iff, H, in_seq. lia.
Qed.

Section TwoParagraphs.

Variables P1 P2 : list ascii.

Lemma two_paragraphs_size :
  size (P1 ++ nl2 ++ P2) = (size P1 + 2 + size P2)%N.
Proof. unfold size. rewrite !length_app. cbn. lia. Qed.

Lemma two_paragraphs_first_newline :
  at_ (P1 ++ nl2 ++ P2) (size P1) = newline.
Proof.
  unfold at_, size. rewrite Nat2N.id. cbn [nl2 app]. apply nth_middle.
Qed.

Lemma two_paragraphs_second_newline :
  at_ (P1 ++ nl2 ++ P2) (size P1 + 1) = newline.
Proof.
  unfold at_, size.
  replace (N.to_nat (N.of_nat (length P1) + 1)) with (length (P1 ++ [newline]))
    by (rewrite length_app; cbn; lia).
  change (P1 ++ nl2 ++ P2) with (P1 ++ [newline] ++ newline :: P2).
  rewrite app_assoc. apply nth_middle.
Qed.

Lemma two_paragraphs_eats :
  eats_second_newline (P1 ++ nl2 ++ P2) (size P1) = true.
Proof.
  apply eats_second_newline_spec. rewrite two_paragraphs_size.
  split; [apply two_paragraphs_first_newline|].
  split; [lia | apply two_paragraphs_second_newline].
Qed.

Lemma two_paragraphs_boundary :
  is_boundary (P1 ++ nl2 ++ P2) (size P1) = true.
Proof.
  unfold is_boundary.
  rewrite two_paragraphs_first_newline, two_paragraphs_second_newline,
    two_paragraphs_size, !Ascii.eqb_refl.
  apply andb_true_iff. split; [apply N.ltb_lt; lia | reflexivity].
Qed.

Lemma two_paragraphs_slice :
  slice (P1 ++ nl2 ++ P2) 0 (size P1 + 1 + 1) = P1 ++ nl2.
Proof.
  unfold slice, size. cbn [N.to_nat skipn].
  replace (N.to_nat (N.of_nat (length P1) + 1 + 1)) with (length (P1 ++ nl2) + 0)%nat
    by (rewrite length_app; cbn; lia).
  now rewrite app_assoc, firstn_app_2, firstn_O, app_nil_r.
Qed.

(** Scenario C, with what the code needs for it: no boundary is detected
    in the first paragraph once the run has reached targetSize, and the
    first paragraph is not longer than [MAX]. *)
Lemma two_paragraphs_first_chunk t :
  (t < size P1)%N -> (size P1 <= prose_MAX t)%N ->
  no_boundary_between (P1 ++ nl2 ++ P2) t (size P1) = true ->
  exists rest,
    SplitProse_atoms (P1 ++ nl2 ++ P2) t
    = Ok (mkAtom (P1 ++ nl2) ProseCut 0 (size P1) :: rest).
Proof.
  intros Ht HM Hnb.
  set (content := P1 ++ nl2 ++ P2) in *.
  set (first := mkAtom (P1 ++ nl2) ProseCut 0 (size P1)).
  destruct (SplitProse_atoms_inv content t
              (fun i st =>
                 ((i <= size P1)%N /\ st = prose_init) \/
                 ((size P1 < i)%N /\ exists rest, p_atoms st = first :: rest)))
    as (st & _ & _ & HP & E).
  - intros i st i' st' Hi Hls [[Hle ->] | [Hgt (rest & Hat)]] Hs.
    + cbn [p_last_split prose_init] in *.
      destruct Hs as [Hn -> -> | Hge Hb Hi' ->]; cbn [p_last_split prose_init] in *.
      * left. split; [|reflexivity].
        destruct (N.eq_dec i (size P1)) as [->|]; [|lia].
        unfold content in Hn. rewrite two_paragraphs_boundary in Hn.
        destruct Hn as [|[? _]]; [lia | discriminate].
      * destruct (N.eq_dec i (size P1)) as [->|Hne].
        -- right. unfold prose_cut_len in *. fold content in Hi'.
           unfold content in *. rewrite two_paragraphs_eats in *.
           cbn [p_last_split prose_init p_atoms app] in *.
           split; [lia|]. exists [].
           replace (size P1 - 0)%N with (size P1) by lia.
           now rewrite two_paragraphs_slice.
        -- exfalso. destruct Hb as [Hb|Hb]; [|lia].
           rewrite (no_boundary_between_spec content t (size P1) i Hnb) in Hb
             by lia. discriminate.
    + right.
      pose proof (prose_step_bounds content t (prose_MAX t) i st i' st'
                    Hls Hi Hs) as [Hb1 _].
      split; [lia|].
      destruct Hs as [_ _ -> | _ _ _ ->]; cbn [p_atoms].
      * eauto.
      * rewrite Hat. cbn [app]. eauto.
  - left. split; [lia | reflexivity].
  - destruct HP as [[Hle _] | [_ (rest & Hat)]].
    + unfold content in Hle. rewrite two_paragraphs_size in Hle. lia.
    + rewrite E, Hat. cbn [app]. eauto.
Qed.

End TwoParagraphs.

(** A cut at a newline followed by a newline takes both. *)
Lemma paragraph_cut_takes_both_newlines content t :
  exists l,
    SplitProse_atoms content t = Ok l /\
    Atomize content "prose" t = Ok (texts l) /\
    forall pre a post,
      l = pre ++ a :: post -> a_cause a = ProseCut ->
      at_ content (a_index a) = newline ->
      (a_index a + 1 < size content)%N ->
      at_ content (a_index a + 1) = newline ->
      a_text a = slice content (a_start a) (run_of a + 1 + 1) /\
      a_text a = slice content (a_start a) (run_of a) ++ nl2 /\
      (a_start a + size (a_text a) = a_index a + 2)%N /\
      (forall b post', post = b :: post' -> a_start b = (a_index a + 2)%N).
Proof.
  destruct (SplitProse_atoms_ok content t) as (l & E & Hok & Hch & _).
  exists l. split; [exact E|]. split; [now apply SplitProse_texts|].
  intros pre a post -> Hc Hnl Hlt Hnl'.
  apply Forall_app in Hok as [_ Hok]. inversion Hok as [|? ? Ha _]; subst.
  destruct Ha as (Hs & Hrun & Ha). rewrite Hc in Ha.
  destruct Ha as (Hi & Ht & _ & Htx & Hle).
  assert (He : eats_second_newline content (a_index a) = true)
    by (apply eats_second_newline_spec; auto).
  unfold prose_cut_len in *. rewrite He in *. unfold run_of in *.
  assert (Hsz : (a_start a + size (a_text a) = a_index a + 2)%N).
  { rewrite Htx at 1. unfold size at 1. rewrite slice_length; lia. }
  repeat split.
  - exact Htx.
  - rewrite Htx, !slice_last by lia.
    replace (a_start a + (a_index a - a_start a))%N with (a_index a) by lia.
    replace (a_start a + (a_index a - a_start a + 1))%N with (a_index a + 1)%N by lia.
    now rewrite Hnl, Hnl', <- app_assoc.
  - exact Hsz.
  - intros b post' ->. rewrite (chained_next _ _ _ _ _ _ Hch).
    unfold size in Hsz. exact Hsz.
Qed.

(** C7, as amended.  A prose cut triggered at a newline that is followed by
    a newline has length [run + 1 + 1]: the chunk ends with the two
    newlines and the next chunk starts right after the second.  For two
    paragraphs separated by two newlines and a targetSize below the length
    of the first, the first chunk is the first paragraph and the two
    newlines provided that no boundary is detected in the first paragraph
    from offset targetSize on and that the first paragraph is no longer
    than [MAX]. *)
Theorem SplitProse_paragraph_cut :
  (forall content t,
      exists l,
        SplitProse_atoms content t = Ok l /\
        Atomize content "prose" t = Ok (texts l) /\
        forall pre a post,
          l = pre ++ a :: post -> a_cause a = ProseCut ->
          at_ content (a_index a) = newline ->
          (a_index a + 1 < size content)%N ->
          at_ content (a_index a + 1) = newline ->
          a_text a = slice content (a_start a) (run_of a + 1 + 1) /\
          a_text a = slice content (a_start a) (run_of a) ++ nl2 /\
          (a_start a + size (a_text a) = a_index a + 2)%N /\
          (forall b post', post = b :: post' -> a_start b = (a_index a + 2)%N)) /\
  (forall P1 P2 t,
      (t < size P1)%N -> (size P1 <= prose_MAX t)%N ->
      no_boundary_between (P1 ++ nl2 ++ P2) t (size P1) = true ->
      returns_chunks (Atomize (P1 ++ nl2 ++ P2) "prose" t)
        (fun chunks => exists rest, chunks = (P1 ++ nl2) :: rest)).
Proof.
  split; [exact paragraph_cut_takes_both_newlines|].
  intros P1 P2 t Ht HM Hnb.
  destruct (two_paragraphs_first_chunk P1 P2 t Ht HM Hnb) as (rest & E).
  exists (texts (mkAtom (P1 ++ nl2) ProseCut 0 (size P1) :: rest)). split.
  - rewrite Atomize_other by discriminate. now apply SplitProse_texts.
  - cbn [texts map a_text]. eauto.
Qed.

Lemma SplitProse_paragraph_cut_witness :
  (5 < size (bytes "Hello world"))%N /\
  (size (bytes "Hello world") <= prose_MAX 5)%N /\
  no_boundary_between (bytes "Hello world" ++ nl2 ++ bytes "Bye") 5%N
    (size (bytes "Hello world")) = true /\
  returns_chunks (Atomize (bytes "Hello world" ++ nl2 ++ bytes "Bye") "prose" 5)
    (fun chunks => exists rest, chunks = (bytes "Hello world" ++ nl2) :: rest).
Proof.
  split; [reflexivity|]. split; [discriminate|]. split; [reflexivity|].
  apply (proj2 SplitProse_paragraph_cut (bytes "Hello world") (bytes "Bye") 5%N).
  - reflexivity.
  - discriminate.
  - reflexivity.
Defined.

(** C7, as stated, fails: the first paragraph "Hello world." ends with a
    sentence terminator, the newline after it makes a sentence boundary,
    and with targetSize 5 the first chunk stops there, before the two
    newlines.  And the first paragraph "abcdefgh" is longer than
    [MAX = 3] for targetSize 1: the first chunk is "abcd". *)
Lemma first_chunk_stops_before_separator :
  ((5 < size (bytes "Hello world."))%N /\
   Atomize (bytes "Hello world." ++ nl2 ++ bytes "Bye") "prose" 5
   = Ok [bytes "Hello world."; nl2 ++ bytes "Bye"] /\
   ~ returns_chunks
       (Atomize (bytes "Hello world." ++ nl2 ++ bytes "Bye") "prose" 5)
       (fun chunks => exists rest, chunks = (bytes "Hello world." ++ nl2) :: rest))
  /\
  ((1 < size (bytes "abcdefgh"))%N /\
   ~ returns_chunks
       (Atomize (bytes "abcdefgh" ++ nl2 ++ bytes "xyz") "prose" 1)
       (fun chunks => exists rest, chunks = (bytes "abcdefgh" ++ nl2) :: rest)).
Proof.
  split.
  - split; [reflexivity|]. split; [vm_compute; reflexivity|].
    intros (chunks & E & rest & H). vm_compute in E. injection E as <-.
    discriminate.
  - split; [reflexivity|].
    intros (chunks & E & rest & H). vm_compute in E. injection E as <-.
    discriminate.
Qed.

(** * Further properties *)

(** ** SplitCode: the layout of the chunks *)

Lemma code_chained_snoc l : forall s e a,
  code_chained s l e -> a_start a = e ->
  code_chained s (l ++ [a]) (e + size (a_text a) + gap a)%N.
Proof.
  induction l as [|x l IH]; intros s e a Hc Ha; cbn in *.
  - subst. auto.
  - destruct Hc as [Hx Hc]. split; auto.
Qed.

Lemma total_size_snoc l (a : atom) :
  total_size (texts (l ++ [a])) = (total_size (texts l) + size (a_text a))%N.
Proof.
  unfold total_size, texts, size.
  rewrite map_app, concat_app, length_app. cbn. rewrite app_nil_r. lia.
Qed.

Lemma forced_count_snoc l (a : atom) :
  forced_count (l ++ [a]) = (forced_count l + gap a)%N.
Proof.
  unfold forced_count, gap, is_forced. rewrite filter_app, length_app. cbn.
  destruct (a_cause a); cbn; lia.
Qed.

Lemma layout_push content l e a n :
  layout_inv content l e -> a_start a = e ->
  a_text a = slice content e n -> (e + n <= size content)%N ->
  layout_inv content (l ++ [a]) (e + n + gap a).
Proof.
  intros (Hc & Hs & Ht) Ha Htx Hn.
  assert (Hsz : size (a_text a) = n)
    by (rewrite Htx; unfold size at 1; now apply slice_length).
  repeat split.
  - rewrite <- Hsz. now apply code_chained_snoc.
  - apply Forall_app. split; auto. constructor; [|constructor].
    now rewrite Hsz, Ha.
  - rewrite total_size_snoc, forced_count_snoc, Hsz. lia.
Qed.

(** The chunks of SplitCode are consecutive slices of the input, in order;
    the only bytes of the input that are in no chunk are the single bytes
    skipped after each forced split, so the chunks hold the whole input but
    for one byte per forced split. *)
Theorem SplitCode_layout content t :
  exists l,
    SplitCode_atoms content t = Ok l /\
    SplitCode content t = Ok (texts l) /\
    code_chained 0 l (size content) /\
    Forall (fun a => a_text a = slice content (a_start a) (size (a_text a))) l /\
    (total_size (texts l) + forced_count l = size content)%N.
Proof.
  destruct (SplitCode_atoms_inv content t
              (fun _ st => layout_inv content (atoms st) (last_split st)))
    as (st & _ & Hls & HP & E).
  - intros i st st' Hi Hls HP _ Hs.
    destruct Hs as [_ Hl Ha | _ _ _ Hl Ha | b _ Hb _ Hl Ha | _ Hl Ha];
      rewrite Hl, Ha.
    + exact HP.
    + replace (i + 1)%N
        with (last_split st + (i - last_split st + 1)
              + gap (mkAtom (slice content (last_split st) (i - last_split st + 1))
                       (Soft (depth st')) (last_split st) i))%N
        by (cbn; lia).
      apply layout_push; auto. lia.
    + replace (b + 1)%N
        with (last_split st + (b - last_split st + 1)
              + gap (mkAtom (slice content (last_split st) (b - last_split st + 1))
                       HardNewline (last_split st) i))%N
        by (cbn; lia).
      apply layout_push; auto. lia.
    + replace (i + 1)%N
        with (last_split st + (i - last_split st)
              + gap (mkAtom (slice content (last_split st) (i - last_split st))
                       HardForced (last_split st) i))%N
        by (cbn; lia).
      apply layout_push; auto. lia.
  - repeat split; constructor.
  - exists (atoms st ++ remainder content (last_split st)).
    split; [exact E|]. split; [now apply SplitCode_texts|].
    unfold remainder.
    destruct (N.ltb_spec (last_split st) (size content)) as [Hr|Hr].
    + pose proof (layout_push content (atoms st) (last_split st)
                    (mkAtom (skipn (N.to_nat (last_split st)) content) Remainder
                       (last_split st) (size content))
                    (size content - last_split st) HP eq_refl) as Hpush.
      cbn [a_text gap a_cause] in Hpush.
      replace (last_split st + (size content - last_split st) + 0)%N
        with (size content) in Hpush by lia.
      apply Hpush; [|lia].
      unfold slice. symmetry. apply firstn_all2.
      rewrite length_skipn. unfold size. lia.
    + rewrite app_nil_r. now replace (size content) with (last_split st) by lia.
Qed.

(** ** SplitCode: the hard limit *)

Lemma code_loop_inv_body content MIN_SIZE MAX_SIZE
    (P : N -> code_state -> Prop) :
  (forall i st st',
      (i < size content)%N -> (last_split st <= i)%N -> P i st ->
      code_body content MIN_SIZE MAX_SIZE i st = Ok st' ->
      P (i + 1)%N st') ->
  forall n i st,
    (i + N.of_nat n <= size content)%N -> (last_split st <= i)%N -> P i st ->
    exists st',
      code_loop content MIN_SIZE MAX_SIZE n i st = Ok st' /\
      P (i + N.of_nat n)%N st'.
Proof.
  intros Hstep. induction n as [|n IH]; intros i st Hn Hls HP.
  - exists st. replace (i + N.of_nat 0)%N with i by lia. auto.
  - destruct (code_body_spec content MIN_SIZE MAX_SIZE i st Hls)
      as (st1 & E & _ & Hs); [lia|].
    destruct (IH (i + 1)%N st1) as (st' & E' & HP').
    + lia.
    + eapply code_step_last_split; eauto.
    + eapply Hstep; eauto. lia.
    + exists st'. cbn [code_loop]. rewrite E. cbn [bind].
      replace (i + N.of_nat (S n))%N with (i + 1 + N.of_nat n)%N by lia.
      auto.
Qed.

Lemma back_scan_loop_window content i st :
  (last_split st <= i)%N -> (i < size content)%N ->
  forall fuel b r,
    (b <= i)%N -> back_scan_loop content i fuel b st = Ok r ->
    (fst r = true ->
     exists b',
       (last_split st < b' <= b)%N /\ (i - b' < 200)%N /\
       at_ content b' = newline /\
       (forall j, (b' < j <= b)%N -> at_ content j <> newline) /\
       snd r = mkCode (depth st) (b' + 1)
                 (atoms st ++
                  [mkAtom (slice content (last_split st) (b' - last_split st + 1))
                     HardNewline (last_split st) i])) /\
    (fst r = false ->
     snd r = st /\
     forall j, (last_split st < j <= b)%N -> (i - j < 200)%N ->
               at_ content j <> newline).
Proof.
  intros Hls Hi.
  induction fuel as [|fuel IH]; intros b r Hb E; rewrite back_scan_loop_eq in E.
  - destruct (N.ltb_spec (last_split st) b); cbn [andb] in E;
      [destruct (N.ltb_spec (i - b) 200); [discriminate|]|];
      injection E as <-; cbn [fst snd];
      (split; [discriminate|]); intros _; (split; [reflexivity|]);
      intros j Hj Hw; lia.
  - destruct (N.ltb_spec (last_split st) b); cbn [andb] in E.
    2:{ injection E as <-. cbn [fst snd]. split; [discriminate|].
        intros _. split; [reflexivity|]. intros j Hj Hw. lia. }
    destruct (N.ltb_spec (i - b) 200).
    2:{ injection E as <-. cbn [fst snd]. split; [discriminate|].
        intros _. split; [reflexivity|]. intros j Hj Hw. lia. }
    destruct (Ascii.eqb_spec (at_ content b) newline) as [Hnl|Hnl].
    + rewrite substr_ok in E by lia. cbn [bind] in E. injection E as <-.
      cbn [fst snd]. split; [|discriminate]. intros _.
      exists b. repeat split; auto; lia.
    + destruct (IH (b - 1)%N r ltac:(lia) E) as [Ht Hf]. split.
      * intros Hr. destruct (Ht Hr) as (b' & Hb' & Hw & Hat & Hno & Hsnd).
        exists b'. repeat split; auto; try lia.
        intros j Hj. destruct (N.eq_dec j b) as [->|Hne]; [exact Hnl|].
        apply Hno. lia.
      * intros Hr. destruct (Hf Hr) as [Hsnd Hno]. split; [exact Hsnd|].
        intros j Hj Hw. destruct (N.eq_dec j b) as [->|Hne]; [exact Hnl|].
        apply Hno; lia.
Qed.

Lemma code_body_hard_atom content MIN_SIZE MAX_SIZE i st st' :
  (last_split st <= i)%N -> (i < size content)%N ->
  code_body content MIN_SIZE MAX_SIZE i st = Ok st' ->
  atoms st' = atoms st \/
  exists a, atoms st' = atoms st ++ [a] /\ hard_atom_ok content a.
Proof.
  intros Hls Hi E. unfold code_body in E.
  set (d := update_depth (at_ content i) (depth st)) in *.
  destruct ((at_ content i =? newline)%char && (d =? 0)%Z
            && (MIN_SIZE <? i - last_split st)%N).
  { rewrite substr_ok in E by lia. cbn [bind] in E. injection E as <-.
    right. eexists. split; [reflexivity|]. exact I. }
  destruct (N.leb_spec MAX_SIZE (i - last_split st)) as [HM|HM].
  2:{ injection E as <-. now left. }
  destruct (back_scan_loop content i 201 i (mkCode d (last_split st) (atoms st)))
    as [[found st1]| |] eqn:Eb; cbn [bind] in E; try discriminate.
  destruct (back_scan_loop_window content i (mkCode d (last_split st) (atoms st))
              Hls Hi 201%nat i (found, st1) ltac:(lia) Eb) as [Ht Hf].
  cbn [fst snd last_split atoms depth] in *.
  destruct found; cbn [negb] in E.
  - injection E as <-.
    destruct (Ht eq_refl) as (b' & Hb' & Hw & Hat & Hno & ->).
    right. eexists. split; [reflexivity|].
    unfold hard_atom_ok, a_last. cbn [a_cause a_start a_text a_index].
    assert (Hsz : size (slice content (last_split st) (b' - last_split st + 1))
                  = (b' - last_split st + 1)%N)
      by (unfold size; apply slice_length; lia).
    rewrite !Hsz.
    replace (last_split st + (b' - last_split st + 1) - 1)%N with b' by lia.
    repeat split; auto; lia.
  - destruct (Hf eq_refl) as [-> Hno]. cbn [last_split atoms] in E.
    rewrite substr_ok in E by lia. cbn [bind] in E. injection E as <-.
    right. eexists. split; [reflexivity|].
    unfold hard_atom_ok. cbn [a_cause a_start a_index]. exact Hno.
Qed.

(** A split at the hard limit cuts right after the nearest newline behind
    [i], which is less than 200 bytes back; it is forced only when none of
    the up to 200 bytes the scan looks at is a newline, and a forced chunk
    has exactly [MAX_SIZE] bytes. *)
Theorem SplitCode_hard_split content t :
  exists l,
    SplitCode_atoms content t = Ok l /\
    Forall (hard_atom_ok content) l /\
    Forall (fun a => a_cause a = HardForced -> size (a_text a) = code_MAX t) l.
Proof.
  destruct (SplitCode_atoms_ok content t) as (l & E & Hok & _).
  exists l. split; [exact E|]. split.
  - destruct (SplitCode_atoms_returns content t) as (st & Es & _ & E').
    rewrite E in E'. injection E' as ->.
    destruct (code_loop_inv_body content (code_MIN t) (code_MAX t)
                (fun _ st => Forall (hard_atom_ok content) (atoms st)))
      with (n := length content) (i := 0%N) (st := code_init)
      as (st' & Es' & HP).
    + intros i s s' Hi Hls HP Eb.
      destruct (code_body_hard_atom _ _ _ _ _ _ Hls Hi Eb) as [->|(a & -> & Ha)];
        auto.
      apply Forall_app. split; auto.
    + unfold size. lia.
    + cbn. lia.
    + constructor.
    + unfold code_scan in Es. rewrite Es in Es'. injection Es' as <-.
      apply Forall_app. split; [exact HP|]. unfold remainder.
      destruct (last_split st <? size content)%N; constructor; [exact I|constructor].
  - eapply Forall_impl; [|exact Hok].
    intros a (Hs & Hrun & H) Hc. rewrite Hc in H. destruct H as (Hi & HM & Ht).
    rewrite Ht. unfold run_of in *. unfold size at 1.
    rewrite slice_length; lia.
Qed.

(** ** Atomize: coverage, short inputs and chunk sizes under prose *)

(** Under every label other than "code" the chunks concatenate to the
    input, for every targetSize, 0 included. *)
Theorem Atomize_prose_reproduces_input content strategy t :
  strategy <> "code"%string ->
  returns_chunks (Atomize content strategy t)
    (fun chunks => concat chunks = content).
Proof.
  intros Hs.
  destruct (SplitProse_atoms_ok content t) as (l & E & _ & _ & Hcat & _).
  exists (texts l). split; [|exact Hcat].
  rewrite Atomize_other by exact Hs. now apply SplitProse_texts.
Qed.

Lemma Atomize_prose_reproduces_input_witness :
  "prose"%string <> "code"%string /\
  returns_chunks (Atomize (bytes "One. Two! Three?") "prose" 0)
    (fun chunks => concat chunks = bytes "One. Two! Three?").
Proof.
  split; [discriminate|].
  apply (Atomize_prose_reproduces_input (bytes "One. Two! Three?") "prose" 0).
  discriminate.
Defined.

Lemma Forall_removelast {A} (P : A -> Prop) (l : list A) :
  Forall P l -> Forall P (removelast l).
Proof.
  induction 1 as [|x l Hx Hl IH]; cbn; [constructor|].
  destruct l; [constructor|]. constructor; auto.
Qed.

(** The atoms pushed inside the loop of SplitProse are all cuts. *)
Lemma SplitProse_loop_atoms content t :
  exists st,
    SplitProse_atoms content t
    = Ok (p_atoms st ++ remainder content (p_last_split st)) /\
    Forall (fun a => a_cause a = ProseCut) (p_atoms st).
Proof.
  destruct (SplitProse_atoms_inv content t
              (fun _ st => Forall (fun a => a_cause a = ProseCut) (p_atoms st)))
    as (st & _ & _ & HP & E).
  - intros i st i' st' _ _ HP [_ _ -> | _ _ _ ->]; auto.
    cbn [p_atoms]. apply Forall_app. split; auto.
  - constructor.
  - eauto.
Qed.

(** Under every label other than "code", every chunk except possibly the
    last has more than targetSize bytes. *)
Theorem Atomize_prose_chunk_minimum content strategy t :
  strategy <> "code"%string ->
  returns_chunks (Atomize content strategy t)
    (fun chunks => Forall (fun c => (t + 1 <= size c)%N) (removelast chunks)).
Proof.
  intros Hs.
  destruct (SplitProse_atoms_ok content t) as (l & E & Hok & _).
  destruct (SplitProse_loop_atoms content t) as (st & E' & Hcut).
  rewrite E in E'. injection E' as ->.
  exists (texts (p_atoms st ++ remainder content (p_last_split st))).
  split; [rewrite Atomize_other by exact Hs; now apply SplitProse_texts|].
  apply Forall_app in Hok as [Hok _].
  assert (Hmin : Forall (fun c => (t + 1 <= size c)%N) (texts (p_atoms st))).
  { apply Forall_map. rewrite Forall_forall in *. intros a Ha.
    specialize (Hok a Ha). specialize (Hcut a Ha).
    destruct Hok as (_ & _ & H). rewrite Hcut in H.
    destruct H as (_ & Ht & _ & Htx & Hle).
    rewrite Htx. unfold size at 1. rewrite slice_length by exact Hle.
    unfold prose_cut_len, run_of in *.
    destruct (eats_second_newline content (a_index a)); lia. }
  unfold texts in *. rewrite map_app. unfold remainder.
  destruct (p_last_split st <? size content)%N; cbn [map].
  - now rewrite removelast_last.
  - rewrite app_nil_r. now apply Forall_removelast.
Qed.

Lemma Atomize_prose_chunk_minimum_witness :
  "prose"%string <> "code"%string /\
  returns_chunks (Atomize (bytes "One. Two! Three?") "prose" 2)
    (fun chunks => Forall (fun c => (2 + 1 <= size c)%N) (removelast chunks)).
Proof.
  split; [discriminate|].
  apply (Atomize_prose_chunk_minimum (bytes "One. Two! Three?") "prose" 2).
  discriminate.
Defined.

(** An input that does not reach the soft threshold comes back as one
    chunk: at most targetSize bytes under a label other than "code", at most
    [targetSize / 2 + 1] bytes under "code" (for a targetSize of at least 1
    whose double fits in [size_t]). *)
Theorem Atomize_short_input content strategy t :
  content <> [] ->
  (strategy <> "code"%string -> (size content <= t)%N ->
   Atomize content strategy t = Ok [content]) /\
  (strategy = "code"%string -> (1 <= t)%N -> (t * 2 < 2 ^ 64)%N ->
   (size content <= t / 2 + 1)%N ->
   Atomize content strategy t = Ok [content]).
Proof.
  intros Hne.
  assert (Hpos : (0 < size content)%N)
    by (destruct content; [congruence | unfold size; cbn; lia]).
  split.
  - intros Hs Hsz. rewrite Atomize_other by exact Hs.
    destruct (SplitProse_atoms_inv content t (fun _ st => st = prose_init))
      as (st & _ & _ & -> & E).
    + intros i st i' st' Hi _ -> [_ _ -> | Ht _ _ _]; auto.
      cbn [p_last_split prose_init] in Ht. lia.
    + reflexivity.
    + rewrite (SplitProse_texts _ _ _ E). unfold remainder.
      cbn [prose_init p_last_split p_atoms app].
      destruct (N.ltb_spec 0 (size content)); [reflexivity | lia].
  - intros -> H1 H2 Hsz. rewrite Atomize_code.
    assert (Hhalf : (t / 2 < t * 2)%N).
    { apply N.Div0.div_lt_upper_bound. lia. }
    destruct (SplitCode_atoms_inv content t
                (fun _ st => last_split st = 0%N /\ atoms st = []))
      as (st & _ & _ & [Hl Ha] & E).
    + intros i st st' Hi _ [Hl Ha] _ Hs.
      rewrite code_MAX_exact in Hs by exact H2. unfold code_MIN in Hs.
      destruct Hs as [_ Hl' Ha' | _ _ Hm _ _ | b HM _ _ _ _ | HM _ _];
        rewrite ?Hl in *; try lia.
      split; congruence.
    + auto.
    + rewrite (SplitCode_texts _ _ _ E), Hl, Ha. unfold remainder.
      destruct (N.ltb_spec 0 (size content)); [reflexivity | lia].
Qed.

Lemma Atomize_short_input_witness :
  bytes "Hello world. This is a test." <> [] /\
  Atomize (bytes "Hello world. This is a test.") "prose" 28
  = Ok [bytes "Hello world. This is a test."] /\
  Atomize (bytes "Hello world. This is a test.") "code" 54
  = Ok [bytes "Hello world. This is a test."].
Proof.
  split; [discriminate|].
  pose proof (Atomize_short_input (bytes "Hello world. This is a test.")) as H.
  split.
  - apply (proj1 (H "prose"%string 28%N ltac:(discriminate)));
      [discriminate | vm_compute; discriminate].
  - apply (proj2 (H "code"%string 54%N ltac:(discriminate)));
      [reflexivity | vm_compute; discriminate | reflexivity
       | vm_compute; discriminate].
Defined.

(** ** The binding *)

(** AtomizeWrapped signals an error only for its first argument: it throws
    a [TypeError] when the first argument is missing or is not a string,
    and returns a chunk array for every other call, whatever the second and
    third arguments are. *)
Theorem AtomizeWrapped_rejects_iff {J} (String_New : list ascii -> J) info :
  (rejected (AtomizeWrapped String_New info) <->
   forall s, nth_error info 0 <> Some (JsString s)) /\
  (rejected (AtomizeWrapped String_New info) ->
   AtomizeWrapped String_New info = Throw TypeError) /\
  ((exists s, nth_error info 0 = Some (JsString s)) ->
   exists atoms, AtomizeWrapped String_New info = Ok (map String_New atoms)).
Proof.
  unfold AtomizeWrapped.
  destruct (nth_error info 0) as [[input|n|]|] eqn:E0.
  - match goal with
    | |- context [Atomize ?c ?s ?t] =>
        destruct (Atomize_returns c s t) as (chunks & E); rewrite E
    end.
    cbn [bind]. split; [split|split].
    + intros (e & He). discriminate.
    + intros H. now contradiction (H input).
    + intros (e & He). discriminate.
    + intros _. exists chunks. reflexivity.
  - split; [split|split]; try reflexivity.
    + intros _ s. discriminate.
    + intros _. now exists TypeError.
    + intros (s & Hs). discriminate.
  - split; [split|split]; try reflexivity.
    + intros _ s. discriminate.
    + intros _. now exists TypeError.
    + intros (s & Hs). discriminate.
  - split; [split|split]; try reflexivity.
    + intros _ s. discriminate.
    + intros _. now exists TypeError.
    + intros (s & Hs). discriminate.
Qed.

Lemma size_t_of_int64_nonneg n :
  (0 <= n < 2 ^ 64)%Z -> size_t_of_int64 n = Z.to_N n.
Proof. intros H. unfold size_t_of_int64. now rewrite Z.mod_small. Qed.

(** Through the binding, a targetSize from 1 to [2^63 - 1] (every positive
    [int64_t]) reaches Atomize unchanged: the array returned holds the
    strings that [Napi::String::New] makes of the chunks of Atomize for
    that targetSize, one string per chunk and in their order, and these
    chunks are non-empty, at least one when the input is not empty.  The
    targetSize [2^63] that makes SplitCode emit empty chunks is not a
    positive [int64_t]. *)
Theorem AtomizeWrapped_positive_targetSize {J} (String_New : list ascii -> J)
    input strategy n rest :
  (1 <= n < 2 ^ 63)%Z ->
  exists atoms,
    Atomize (bytes input) strategy (Z.to_N n) = Ok atoms /\
    AtomizeWrapped String_New
      (JsString input :: JsString strategy :: JsNumber n :: rest)
    = Ok (map String_New atoms) /\
    Forall (fun c => c <> []) atoms /\
    (bytes input <> [] -> atoms <> []).
Proof.
  intros Hn.
  assert (Hsz : size_t_of_int64 n = Z.to_N n).
  { rewrite size_t_of_int64_nonneg; [reflexivity|].
    change (2 ^ 63)%Z with 9223372036854775808%Z in Hn.
    change (2 ^ 64)%Z with 18446744073709551616%Z. lia. }
  assert (H1 : (1 <= Z.to_N n)%N) by lia.
  assert (H2 : (Z.to_N n < 2 ^ 64)%N).
  { change (2 ^ 63)%Z with 9223372036854775808%Z in Hn.
    change (2 ^ 64)%N with 18446744073709551616%N. lia. }
  assert (H3 : Z.to_N n <> (2 ^ 63)%N).
  { change (2 ^ 63)%Z with 9223372036854775808%Z in Hn.
    change (2 ^ 63)%N with 9223372036854775808%N. lia. }
  unfold AtomizeWrapped. cbn [nth_error]. rewrite Hsz.
  destruct (Atomize_atoms (bytes input) strategy (Z.to_N n))
    as (l & El & Hne & [(Hs & _ & Hok) | (Hs & _ & Hok & _)]);
    exists (texts l); rewrite El; (split; [reflexivity|]);
    (split; [reflexivity|]); split;
    try (intros Hin Habs; apply map_eq_nil in Habs; now apply Hne);
    apply Forall_map; (eapply Forall_impl; [|exact Hok]); intros a Ha.
  - apply code_atom_length in Ha as [_ Ha]. apply Ha.
    pose proof (code_MAX_nonzero _ H1 H2 H3). lia.
  - now apply prose_atom_length in Ha as [_ Ha].
Qed.

Lemma AtomizeWrapped_positive_targetSize_witness :
  (1 <= 4 < 2 ^ 63)%Z /\
  exists atoms,
    Atomize (bytes "abcdefghijk") "code" (Z.to_N 4) = Ok atoms /\
    AtomizeWrapped (fun chunk => string_of_list_ascii chunk)
      [JsString "abcdefghijk"; JsString "code"; JsNumber 4]
    = Ok (map (fun chunk => string_of_list_ascii chunk) atoms) /\
    Forall (fun c => c <> []) atoms /\
    (bytes "abcdefghijk" <> [] -> atoms <> []).
Proof.
  split; [split; [discriminate | reflexivity]|].
  apply (AtomizeWrapped_positive_targetSize
           (fun chunk => string_of_list_ascii chunk)
           "abcdefghijk" "code" 4 []).
  split; [discriminate | reflexivity].
Defined.

(** ** CleanHtml *)

Example CleanHtml_example_1 :
  CleanHtml (bytes "<p>Hello &amp; <b>good</b>   bye</p>")
  = Ok (bytes "Hello & good bye").
Proof. vm_compute. reflexivity. Qed.

Lemma string_of_list_ascii_eqb l s :
  (string_of_list_ascii l =? s)%string = true <-> l = bytes s.
Proof.
  unfold bytes. rewrite String.eqb_eq. split.
  - intros <-. now rewrite list_ascii_of_string_of_list_ascii.
  - intros ->. now rewrite string_of_list_ascii_of_string.
Qed.

Lemma slice_is_spec raw pos count s :
  slice_is raw pos count s = true <-> slice raw pos count = bytes s.
Proof. apply string_of_list_ascii_eqb. Qed.

Lemma substr_is_ok raw pos count s :
  (pos <= size raw)%N -> substr_is raw pos count s = Ok (slice_is raw pos count s).
Proof. intros H. unfold substr_is. now rewrite substr_ok. Qed.

(** A slice of six bytes is not a literal of four. *)
Lemma slice_is_longer raw pos count s :
  (pos + count <= size raw)%N -> N.of_nat (length (bytes s)) <> count ->
  slice_is raw pos count s = false.
Proof.
  intros H Hn. destruct (slice_is raw pos count s) eqn:E; [|reflexivity].
  apply slice_is_spec in E. apply (f_equal (@length ascii)) in E.
  pose proof (slice_length raw pos count H). lia.
Qed.

Lemma look_back_le raw pos : (look_back raw pos <= pos)%nat.
Proof.
  induction pos as [|p IH]; cbn [look_back]; [lia|].
  destruct (nth (S p) raw zero =? "<")%char; lia.
Qed.

Ltac split_tests :=
  repeat (cbn [bind];
          match goal with
          | |- context [if ?b then _ else _] => destruct b
          end);
  cbn [bind]; eauto.

Lemma is_script_open_ok raw i :
  (i < size raw)%N -> exists b, is_script_open raw i = Ok b.
Proof.
  intros Hi. unfold is_script_open, andM, orM.
  rewrite !substr_is_ok by lia. split_tests.
Qed.

Lemma is_style_open_ok raw i :
  (i < size raw)%N -> exists b, is_style_open raw i = Ok b.
Proof.
  intros Hi. unfold is_style_open, andM, orM.
  rewrite !substr_is_ok by lia. split_tests.
Qed.

Lemma closes_element_ok raw i count lower upper :
  (i < size raw)%N -> exists b, closes_element raw i count lower upper = Ok b.
Proof.
  intros Hi. unfold closes_element, andM, orM.
  pose proof (look_back_le raw (N.to_nat i)).
  rewrite !substr_is_ok by lia. split_tests.
Qed.

Lemma decode_entity_ok raw i :
  (i < size raw)%N -> decode_entity raw i = Ok (entity_at raw i).
Proof.
  intros Hi. unfold decode_entity, entity_at, andM.
  rewrite !substr_is_ok by lia. cbn [bind].
  destruct (N.ltb_spec (i + 4) (size raw)) as [H4|H4];
    destruct (N.ltb_spec (i + 5) (size raw)) as [H5|H5]; cbn [bind andb];
    try lia.
  - rewrite (slice_is_longer raw i 6 "&lt;"), (slice_is_longer raw i 6 "&gt;")
      by (cbn; lia).
    destruct (slice_is raw i 5 "&amp;"); [reflexivity|].
    destruct (slice_is raw i 6 "&quot;"); [reflexivity|].
    destruct (slice_is raw i 5 "&#39;"); reflexivity.
  - destruct (slice_is raw i 5 "&amp;"); [reflexivity|].
    destruct (slice_is raw i 5 "&#39;"); reflexivity.
  - reflexivity.
Qed.

Lemma entity_at_cases raw i d k :
  entity_at raw i = Some (d, k) ->
  (i + k < size raw)%N /\ (1 <= k)%N /\ isspace d = false /\ no_angle d /\
  ((d = "&"%char /\ k = 4%N /\ slice raw i 5 = bytes "&amp;") \/
   (d = double_quote /\ k = 5%N /\ slice raw i 6 = bytes "&quot;") \/
   (d = "'"%char /\ k = 4%N /\ slice raw i 5 = bytes "&#39;")).
Proof.
  unfold entity_at, no_angle.
  destruct (N.ltb_spec (i + 4) (size raw)) as [H4|H4];
    destruct (N.ltb_spec (i + 5) (size raw)) as [H5|H5]; cbn [andb];
    try discriminate; try lia.
  - destruct (slice_is raw i 5 "&amp;") eqn:E1.
    { intros [= <- <-]. apply slice_is_spec in E1.
      repeat split; try lia; try discriminate; auto. }
    destruct (slice_is raw i 6 "&quot;") eqn:E2.
    { intros [= <- <-]. apply slice_is_spec in E2.
      repeat split; try lia; try discriminate; auto. }
    destruct (slice_is raw i 5 "&#39;") eqn:E3; [|discriminate].
    intros [= <- <-]. apply slice_is_spec in E3.
    repeat split; try lia; try discriminate; auto.
  - destruct (slice_is raw i 5 "&amp;") eqn:E1.
    { intros [= <- <-]. apply slice_is_spec in E1.
      repeat split; try lia; try discriminate; auto. }
    destruct (slice_is raw i 5 "&#39;") eqn:E3; [|discriminate].
    intros [= <- <-]. apply slice_is_spec in E3.
    repeat split; try lia; try discriminate; auto.
Qed.

(** What an iteration of CleanHtml's first loop does to [i] and [clean]. *)
Lemma html_body_spec raw i st :
  (i < size raw)%N ->
  exists i' st',
    html_body raw i st = Ok (i', st') /\
    (i <= i' < size raw)%N /\
    (clean st' = clean st \/
     exists c, clean st' = clean st ++ [c] /\ no_angle c).
Proof.
  intros Hi. unfold html_body.
  destruct (Ascii.eqb_spec (at_ raw i) "<") as [Hlt|Hlt].
  { destruct (is_script_open_ok raw i Hi) as (so & ->). cbn [bind].
    destruct so; [do 2 eexists; split; [reflexivity|]; split; [lia|now left]|].
    destruct (is_style_open_ok raw i Hi) as (sy & ->). cbn [bind].
    destruct sy; do 2 eexists; (split; [reflexivity|]); (split; [lia|now left]). }
  destruct (Ascii.eqb_spec (at_ raw i) ">") as [Hgt|Hgt].
  { destruct (in_script st && (i + 8 <? size raw)%N).
    { destruct (closes_element_ok raw i 9 "</script>" "</SCRIPT>" Hi) as (b & ->).
      cbn [bind]. do 2 eexists. split; [reflexivity|]. split; [lia|now left]. }
    destruct (in_style st && (i + 7 <? size raw)%N).
    { destruct (closes_element_ok raw i 8 "</style>" "</STYLE>" Hi) as (b & ->).
      cbn [bind]. do 2 eexists. split; [reflexivity|]. split; [lia|now left]. }
    do 2 eexists. split; [reflexivity|]. split; [lia|now left]. }
  destruct (in_script st || in_style st).
  { do 2 eexists. split; [reflexivity|]. split; [lia|now left]. }
  destruct (in_tag st).
  { do 2 eexists. split; [reflexivity|]. split; [lia|now left]. }
  destruct ((at_ raw i =? newline) || (at_ raw i =? carriage_return))%char.
  { destruct (is_empty (clean st) || negb (last (clean st) zero =? newline)%char);
      do 2 eexists; (split; [reflexivity|]); (split; [lia|]); [|now left].
    right. exists newline. split; [reflexivity|]. split; discriminate. }
  assert (Hr : exists r,
             (if (at_ raw i =? "&")%char && (i + 1 <? size raw)%N
              then decode_entity raw i else Ok None) = Ok r /\
             (r = None \/ exists d k, r = Some (d, k) /\ entity_at raw i = r)).
  { destruct ((at_ raw i =? "&")%char && (i + 1 <? size raw)%N).
    - rewrite decode_entity_ok by exact Hi. eexists. split; [reflexivity|].
      destruct (entity_at raw i) as [[d k]|]; eauto.
    - eauto. }
  destruct Hr as (r & -> & [->|(d & k & -> & He)]); cbn [bind].
  - do 2 eexists. split; [reflexivity|]. split; [lia|].
    right. exists (at_ raw i). split; [reflexivity|]. now split.
  - destruct (entity_at_cases raw i d k He) as (Hk & Hk1 & _ & Hna & _).
    do 2 eexists. split; [reflexivity|]. split; [lia|].
    right. exists d. split; [reflexivity | exact Hna].
Qed.

(** An invariant of the body is an invariant of the loop, which returns. *)
Lemma html_loop_inv raw (P : N -> html_state -> Prop) :
  (forall i st i' st',
      (i < size raw)%N -> P i st ->
      html_body raw i st = Ok (i', st') -> P (i' + 1)%N st') ->
  forall fuel i st,
    (size raw <= i + N.of_nat fuel)%N -> (i <= size raw)%N -> P i st ->
    exists st', html_loop raw fuel i st = Ok st' /\ P (size raw) st'.
Proof.
  intros Hstep. induction fuel as [|fuel IH]; intros i st Hf Hi HP.
  - assert (i = size raw) by lia. subst i. exists st. cbn [html_loop].
    rewrite N.ltb_irrefl. auto.
  - cbn [html_loop].
    destruct (N.ltb_spec i (size raw)) as [Hlt|Hge].
    + destruct (html_body_spec raw i st Hlt) as (i' & st1 & E & Hb & _).
      rewrite E. cbn [bind fst snd].
      apply IH; try lia. eapply Hstep; eauto.
    + assert (i = size raw) by lia. subst i. exists st. auto.
Qed.

Lemma CleanHtml_inv raw (P : N -> html_state -> Prop) :
  (forall i st i' st',
      (i < size raw)%N -> P i st ->
      html_body raw i st = Ok (i', st') -> P (i' + 1)%N st') ->
  P 0%N html_init ->
  exists st,
    P (size raw) st /\ CleanHtml raw = Ok (normalize_ws (clean st)).
Proof.
  intros Hstep H0.
  destruct (html_loop_inv raw P Hstep (length raw) 0%N html_init)
    as (st & E & HP); try (unfold size; lia); auto.
  exists st. split; [exact HP|]. unfold CleanHtml. now rewrite E.
Qed.

Lemma fold_norm_step l : forall acc b,
  fst (fold_left norm_step l (acc, b)) = acc ++ norm_from b l.
Proof.
  induction l as [|c l IH]; intros acc b; cbn [fold_left norm_from].
  - cbn. now rewrite app_nil_r.
  - unfold norm_step at 2. cbn [fst snd].
    destruct (isspace c); [destruct b|]; rewrite IH, <- ?app_assoc; reflexivity.
Qed.

Lemma normalize_ws_norm_from l : normalize_ws l = norm_from false l.
Proof. unfold normalize_ws. now rewrite fold_norm_step. Qed.

Lemma norm_from_length l : forall b,
  (length (norm_from b l) <= length l)%nat.
Proof.
  induction l as [|c l IH]; intros b; cbn [norm_from length]; [lia|].
  pose proof (IH true). pose proof (IH false).
  destruct (isspace c); [destruct b|]; cbn [length]; lia.
Qed.

Lemma norm_from_Forall (P : ascii -> Prop) l :
  P " "%char -> Forall P l -> forall b, Forall P (norm_from b l).
Proof.
  intros Hsp H. induction H as [|c l Hc Hl IH]; intros b; cbn [norm_from];
    [constructor|].
  destruct (isspace c); [destruct b|]; auto.
Qed.

Lemma norm_from_spaces l : forall b,
  Forall (fun c => isspace c = true -> c = " "%char) (norm_from b l) /\
  single_spaced (norm_from b l) /\
  (b = true -> starts_nonspace (norm_from b l)).
Proof.
  induction l as [|c l IH]; intros b; cbn [norm_from].
  - repeat split; auto.
  - destruct (isspace c) eqn:Ec; [destruct b|].
    + apply IH.
    + destruct (IH true) as (H1 & H2 & H3). repeat split.
      * constructor; auto.
      * cbn [single_spaced]. specialize (H3 eq_refl).
        destruct (norm_from true l) as [|d tl]; [exact I|].
        split; [|exact H2]. cbn in H3. intros [_ Hd]. congruence.
      * discriminate.
    + destruct (IH false) as (H1 & H2 & _). repeat split.
      * constructor; auto. intros Habs. congruence.
      * cbn [single_spaced].
        destruct (norm_from false l) as [|d tl]; [exact I|].
        split; [|exact H2]. intros [Hc _]. congruence.
      * intros _. exact Ec.
Qed.

(** CleanHtml returns for every input (no [substr] is out of range), and
    its result is never longer than its input. *)
Theorem CleanHtml_returns_shorter raw :
  exists out, CleanHtml raw = Ok out /\ (length out <= length raw)%nat.
Proof.
  destruct (CleanHtml_inv raw (fun i st => (size (clean st) <= i)%N))
    as (st & HP & E).
  - intros i st i' st' Hi HP Eb.
    destruct (html_body_spec raw i st Hi) as (j & st1 & E1 & Hb & Hc).
    rewrite Eb in E1. injection E1 as <- <-.
    destruct Hc as [->|(c & -> & _)]; unfold size in *;
      rewrite ?length_app; cbn [length]; lia.
  - cbn. lia.
  - eexists. split; [exact E|]. rewrite normalize_ws_norm_from.
    pose proof (norm_from_length (clean st) false). unfold size in HP. lia.
Qed.

(** The result of CleanHtml holds no '<' and no '>': both are dropped
    wherever they stand, and the entities "&lt;" and "&gt;" are never
    decoded. *)
Theorem CleanHtml_no_angle_bracket raw :
  exists out,
    CleanHtml raw = Ok out /\
    ~ In "<"%char out /\ ~ In ">"%char out.
Proof.
  destruct (CleanHtml_inv raw (fun _ st => Forall no_angle (clean st)))
    as (st & HP & E).
  - intros i st i' st' Hi HP Eb.
    destruct (html_body_spec raw i st Hi) as (j & st1 & E1 & Hb & Hc).
    rewrite Eb in E1. injection E1 as <- <-.
    destruct Hc as [->|(c & -> & Hna)]; auto.
    apply Forall_app. split; auto.
  - constructor.
  - eexists. split; [exact E|]. rewrite normalize_ws_norm_from.
    assert (H : Forall no_angle (norm_from false (clean st)))
      by (apply norm_from_Forall; [split; discriminate | exact HP]).
    rewrite Forall_forall in H.
    split; intros Hin; destruct (H _ Hin) as [H1 H2]; congruence.
Qed.

(** In the result of CleanHtml every whitespace character is a space and no
    two spaces are adjacent; no newline is left. *)
Theorem CleanHtml_whitespace raw :
  exists out,
    CleanHtml raw = Ok out /\
    Forall (fun c => isspace c = true -> c = " "%char) out /\
    single_spaced out /\
    ~ In newline out.
Proof.
  destruct (CleanHtml_inv raw (fun _ _ => True)) as (st & _ & E); auto.
  eexists. split; [exact E|]. rewrite normalize_ws_norm_from.
  destruct (norm_from_spaces (clean st) false) as (H1 & H2 & _).
  repeat split; auto.
  intros Hin. rewrite Forall_forall in H1. specialize (H1 _ Hin eq_refl).
  discriminate.
Qed.

(** ** CleanHtml on text without markup *)

Lemma skipn_at raw i :
  (i < size raw)%N ->
  skipn (N.to_nat i) raw = at_ raw i :: skipn (N.to_nat (i + 1)) raw.
Proof.
  unfold size, at_. intros Hi.
  replace (N.to_nat (i + 1)) with (S (N.to_nat i)) by lia.
  assert (Hlt : (N.to_nat i < length raw)%nat) by lia.
  revert Hlt. generalize (N.to_nat i). clear. intros n. revert raw.
  induction n as [|n IH]; intros [|x xs] Hlt; cbn in *; try lia; auto.
  apply IH. lia.
Qed.

Lemma slice_nth raw i n j :
  (j < n)%N -> (i + n <= size raw)%N ->
  nth (N.to_nat j) (slice raw i n) zero = at_ raw (i + j).
Proof.
  intros Hj Hn. unfold slice, at_.
  rewrite nth_firstn.
  destruct (Nat.ltb_spec (N.to_nat j) (N.to_nat n)); [|lia].
  rewrite nth_skipn. f_equal. lia.
Qed.

Lemma slice_is_bound raw pos n s :
  slice_is raw pos n s = true -> (0 < n)%N ->
  N.of_nat (length (bytes s)) = n ->
  (pos + n <= size raw)%N.
Proof.
  intros H Hpos Hn. apply slice_is_spec in H.
  apply (f_equal (@length ascii)) in H. unfold slice, size in *.
  rewrite length_firstn, length_skipn in H. lia.
Qed.

Lemma decode_entities_skip k : forall l,
  (k <= length l)%nat -> decode_entities k l = decode_entities 0 (skipn k l).
Proof.
  induction k as [|k IH]; intros l Hk; [reflexivity|].
  destruct l as [|c tl]; cbn in Hk; [lia|].
  cbn [decode_entities skipn]. apply IH. lia.
Qed.

Lemma starts_with_slice raw i s :
  starts_with s (skipn (N.to_nat i) raw)
  = slice_is raw i (N.of_nat (String.length s)) s.
Proof. unfold starts_with, slice_is, slice. now rewrite Nat2N.id. Qed.

(** [entity_at] without its bounds tests, which follow from the match. *)
Lemma entity_at_slices raw i :
  entity_at raw i
  = if slice_is raw i 5 "&amp;" then Some ("&"%char, 4%N)
    else if slice_is raw i 6 "&quot;" then Some (double_quote, 5%N)
    else if slice_is raw i 5 "&#39;" then Some ("'"%char, 4%N)
    else None.
Proof.
  unfold entity_at.
  destruct (slice_is raw i 5 "&amp;") eqn:E1.
  { apply slice_is_bound in E1; [|reflexivity|reflexivity].
    destruct (N.ltb_spec (i + 4) (size raw)); [reflexivity | lia]. }
  rewrite andb_false_r.
  destruct (slice_is raw i 6 "&quot;") eqn:E2.
  { apply slice_is_bound in E2; [|reflexivity|reflexivity].
    destruct (N.ltb_spec (i + 5) (size raw)); [reflexivity | lia]. }
  rewrite andb_false_r.
  destruct (slice_is raw i 5 "&#39;") eqn:E3.
  { apply slice_is_bound in E3; [|reflexivity|reflexivity].
    destruct (N.ltb_spec (i + 4) (size raw)); [reflexivity | lia]. }
  now rewrite andb_false_r.
Qed.

Lemma decode_entities_at raw i :
  (i < size raw)%N ->
  decode_entities 0 (skipn (N.to_nat i) raw)
  = match entity_at raw i with
    | Some (d, k) => d :: decode_entities 0 (skipn (N.to_nat (i + k + 1)) raw)
    | None => at_ raw i :: decode_entities 0 (skipn (N.to_nat (i + 1)) raw)
    end.
Proof.
  intros Hi.
  pose proof (starts_with_slice raw i "&amp;") as S1.
  pose proof (starts_with_slice raw i "&quot;") as S2.
  pose proof (starts_with_slice raw i "&#39;") as S3.
  cbn [String.length N.of_nat Pos.of_succ_nat Pos.succ] in S1, S2, S3.
  rewrite entity_at_slices. rewrite (skipn_at raw i Hi) in *.
  cbn [decode_entities]. rewrite S1, S2, S3.
  assert (Hskip : forall k : N,
             (i + k < size raw)%N ->
             decode_entities (N.to_nat k) (skipn (N.to_nat (i + 1)) raw)
             = decode_entities 0 (skipn (N.to_nat (i + k + 1)) raw)).
  { intros k Hk. rewrite decode_entities_skip
      by (rewrite length_skipn; unfold size in *; lia).
    rewrite skipn_skipn. f_equal. f_equal. lia. }
  destruct (slice_is raw i 5 "&amp;") eqn:E1.
  { apply slice_is_bound in E1; [|reflexivity|reflexivity].
    f_equal. apply (Hskip 4%N). lia. }
  destruct (slice_is raw i 6 "&quot;") eqn:E2.
  { apply slice_is_bound in E2; [|reflexivity|reflexivity].
    f_equal. apply (Hskip 5%N). lia. }
  destruct (slice_is raw i 5 "&#39;") eqn:E3.
  { apply slice_is_bound in E3; [|reflexivity|reflexivity].
    f_equal. apply (Hskip 4%N). lia. }
  reflexivity.
Qed.

(** The last byte of a decoded entity is ';'. *)
Lemma entity_at_semicolon raw i d k :
  entity_at raw i = Some (d, k) ->
  at_ raw i = "&"%char /\ at_ raw (i + k) = ";"%char.
Proof.
  intros He.
  destruct (entity_at_cases raw i d k He)
    as (Hk & _ & _ & _ & [(_ & -> & Hs) | [(_ & -> & Hs) | (_ & -> & Hs)]]).
  - split.
    + rewrite <- (N.add_0_r i), <- (slice_nth raw i 5 0), Hs by lia. reflexivity.
    + rewrite <- (slice_nth raw i 5 4), Hs by lia. reflexivity.
  - split.
    + rewrite <- (N.add_0_r i), <- (slice_nth raw i 6 0), Hs by lia. reflexivity.
    + rewrite <- (slice_nth raw i 6 5), Hs by lia. reflexivity.
  - split.
    + rewrite <- (N.add_0_r i), <- (slice_nth raw i 5 0), Hs by lia. reflexivity.
    + rewrite <- (slice_nth raw i 5 4), Hs by lia. reflexivity.
Qed.

(** The body of the loop outside tags, on a byte that is not a bracket or a
    line break. *)
Lemma html_body_plain raw i st :
  (i < size raw)%N ->
  in_script st = false -> in_style st = false -> in_tag st = false ->
  at_ raw i <> "<"%char -> at_ raw i <> ">"%char ->
  at_ raw i <> newline -> at_ raw i <> carriage_return ->
  html_body raw i st
  = Ok (match entity_at raw i with
        | Some (d, k) => ((i + k)%N, push st d)
        | None => (i, push st (at_ raw i))
        end).
Proof.
  intros Hi Hs Hy Ht Hlt Hgt Hnl Hcr. unfold html_body.
  rewrite Hs, Hy, Ht. cbn [andb orb].
  destruct (Ascii.eqb_spec (at_ raw i) "<"); [contradiction|].
  destruct (Ascii.eqb_spec (at_ raw i) ">"); [contradiction|].
  destruct (Ascii.eqb_spec (at_ raw i) newline); [contradiction|].
  destruct (Ascii.eqb_spec (at_ raw i) carriage_return); [contradiction|].
  cbn [orb].
  destruct (entity_at raw i) as [[d k]|] eqn:He.
  - destruct (entity_at_semicolon raw i d k He) as [Hamp _].
    destruct (entity_at_cases raw i d k He) as (Hk & Hk1 & _).
    rewrite Hamp, Ascii.eqb_refl.
    destruct (N.ltb_spec (i + 1) (size raw)); [|lia]. cbn [andb].
    rewrite decode_entity_ok, He by exact Hi. reflexivity.
  - destruct ((at_ raw i =? "&")%char && (i + 1 <? size raw)%N).
    + rewrite decode_entity_ok, He by exact Hi. reflexivity.
    + reflexivity.
Qed.

Lemma plain_text_spec raw :
  plain_text raw = true ->
  forall i, (i < size raw)%N ->
    at_ raw i <> "<"%char /\ at_ raw i <> ">"%char /\
    (isspace (at_ raw i) = true ->
     at_ raw i = " "%char /\ space_before raw i = false).
Proof.
  unfold plain_text, size, at_, space_before. intros H i Hi.
  apply andb_true_iff in H as [H1 H2].
  rewrite forallb_forall in H1, H2.
  assert (Hlt : (N.to_nat i < length raw)%nat) by lia.
  specialize (H1 _ (nth_In raw zero Hlt)).
  assert (Hseq : In (N.to_nat i) (seq 0 (length raw))) by (apply in_seq; lia).
  specialize (H2 _ Hseq).
  apply andb_true_iff in H1 as [Ha Hb].
  apply negb_true_iff in Ha, Hb. apply Ascii.eqb_neq in Ha, Hb.
  split; [exact Ha|]. split; [exact Hb|].
  intros Hsp. cbv zeta in H2. rewrite Hsp in H2. cbn [negb orb] in H2.
  apply andb_true_iff in H2 as [Hc Hd]. apply Ascii.eqb_eq in Hc.
  split; [exact Hc|].
  destruct (N.eqb_spec i 0) as [->|Hne]; [reflexivity|].
  apply orb_true_iff in Hd as [Hd|Hd].
  - apply Nat.eqb_eq in Hd. lia.
  - apply negb_true_iff in Hd. unfold at_.
    now replace (N.to_nat (i - 1)) with (N.to_nat i - 1)%nat by lia.
Qed.

(** On a text without '<' and '>' whose whitespace is single spaces,
    CleanHtml replaces each "&amp;", "&quot;" and "&#39;" by its character
    and keeps every other byte: an entity at the very end of the text is
    decoded too, and "&lt;" and "&gt;" stay as they are. *)
Theorem CleanHtml_plain_text raw :
  plain_text raw = true ->
  CleanHtml raw = Ok (decode_entities 0 raw).
Proof.
  intros Hplain. pose proof (plain_text_spec raw Hplain) as Hp.
  destruct (CleanHtml_inv raw
              (fun i st =>
                 in_script st = false /\ in_style st = false /\
                 in_tag st = false /\
                 decode_entities 0 raw
                 = clean st ++ decode_entities 0 (skipn (N.to_nat i) raw) /\
                 fold_left norm_step (clean st) ([], false)
                 = (clean st, space_before raw i)))
    as (st & (_ & _ & _ & Hdec & Hnorm) & E).
  - intros i st i' st' Hi (Hs & Hy & Ht & Hdec & Hnorm) Eb.
    destruct (Hp i Hi) as (Hlt & Hgt & Hsp).
    assert (Hnl : at_ raw i <> newline)
      by (intros Habs; rewrite Habs in Hsp; now destruct (Hsp eq_refl)).
    assert (Hcr : at_ raw i <> carriage_return)
      by (intros Habs; rewrite Habs in Hsp; now destruct (Hsp eq_refl)).
    rewrite html_body_plain in Eb by assumption.
    rewrite decode_entities_at in Hdec by exact Hi.
    destruct (entity_at raw i) as [[d k]|] eqn:He; injection Eb as <- <-;
      cbn [push in_script in_style in_tag clean];
      (split; [exact Hs|]); (split; [exact Hy|]); (split; [exact Ht|]).
    + destruct (entity_at_cases raw i d k He) as (Hk & Hk1 & Hd & _).
      destruct (entity_at_semicolon raw i d k He) as [_ Hsemi].
      split; [now rewrite <- app_assoc|].
      rewrite fold_left_app, Hnorm. cbn [fold_left]. unfold norm_step.
      rewrite Hd. cbn [fst]. f_equal. unfold space_before.
      destruct (N.eqb_spec (i + k + 1) 0); [lia|].
      replace (i + k + 1 - 1)%N with (i + k)%N by lia. now rewrite Hsemi.
    + split; [now rewrite <- app_assoc|].
      rewrite fold_left_app, Hnorm. cbn [fold_left]. unfold norm_step.
      cbn [fst snd].
      assert (Hnext : space_before raw (i + 1) = isspace (at_ raw i)).
      { unfold space_before. destruct (N.eqb_spec (i + 1) 0); [lia|].
        now replace (i + 1 - 1)%N with i by lia. }
      rewrite Hnext.
      destruct (isspace (at_ raw i)) eqn:Esp; [|reflexivity].
      destruct (Hsp eq_refl) as [-> ->]. reflexivity.
  - repeat split; reflexivity.
  - rewrite E. f_equal. unfold normalize_ws. rewrite Hnorm. cbn [fst].
    rewrite Hdec, skipn_all2 by (unfold size; lia). cbn [decode_entities].
    now rewrite app_nil_r.
Qed.

Lemma CleanHtml_plain_text_witness :
  plain_text (bytes "a &lt; b &amp; c &quot;d&quot; e&#39;s &amp;") = true /\
  CleanHtml (bytes "a &lt; b &amp; c &quot;d&quot; e&#39;s &amp;")
  = Ok (bytes "a &lt; b & c " ++ [double_quote] ++ bytes "d"
          ++ [double_quote] ++ bytes " e's &").
Proof.
  split; [reflexivity|].
  rewrite (CleanHtml_plain_text
             (bytes "a &lt; b &amp; c &quot;d&quot; e&#39;s &amp;") eq_refl).
  reflexivity.
Defined.

(** ** CleanHtml on markup without script and style elements *)

Lemma strip_markup_skip k t : forall l,
  (k <= length l)%nat -> strip_markup k t l = strip_markup 0 t (skipn k l).
Proof.
  induction k as [|k IH]; intros l Hk; [reflexivity|].
  destruct l as [|c tl]; cbn in Hk; [lia|].
  cbn [strip_markup skipn]. apply IH. lia.
Qed.

Lemma strip_markup_at raw i t :
  (i < size raw)%N ->
  strip_markup 0 t (skipn (N.to_nat i) raw)
  = if (at_ raw i =? "<")%char
    then strip_markup 0 true (skipn (N.to_nat (i + 1)) raw)
    else if (at_ raw i =? ">")%char
    then strip_markup 0 false (skipn (N.to_nat (i + 1)) raw)
    else if t then strip_markup 0 true (skipn (N.to_nat (i + 1)) raw)
    else match entity_at raw i with
         | Some (d, k) =>
             d :: strip_markup 0 false (skipn (N.to_nat (i + k + 1)) raw)
         | None =>
             at_ raw i :: strip_markup 0 false (skipn (N.to_nat (i + 1)) raw)
         end.
Proof.
  intros Hi.
  pose proof (starts_with_slice raw i "&amp;") as S1.
  pose proof (starts_with_slice raw i "&quot;") as S2.
  pose proof (starts_with_slice raw i "&#39;") as S3.
  cbn [String.length N.of_nat Pos.of_succ_nat Pos.succ] in S1, S2, S3.
  rewrite entity_at_slices. rewrite (skipn_at raw i Hi) in *.
  cbn [strip_markup]. rewrite S1, S2, S3.
  destruct (at_ raw i =? "<")%char; [reflexivity|].
  destruct (at_ raw i =? ">")%char; [reflexivity|].
  destruct t; [reflexivity|].
  assert (Hskip : forall k : N,
             (i + k < size raw)%N ->
             strip_markup (N.to_nat k) false (skipn (N.to_nat (i + 1)) raw)
             = strip_markup 0 false (skipn (N.to_nat (i + k + 1)) raw)).
  { intros k Hk. rewrite strip_markup_skip
      by (rewrite length_skipn; unfold size in *; lia).
    rewrite skipn_skipn. f_equal. f_equal. lia. }
  destruct (slice_is raw i 5 "&amp;") eqn:E1.
  { apply slice_is_bound in E1; [|reflexivity|reflexivity].
    f_equal. apply (Hskip 4%N). lia. }
  destruct (slice_is raw i 6 "&quot;") eqn:E2.
  { apply slice_is_bound in E2; [|reflexivity|reflexivity].
    f_equal. apply (Hskip 5%N). lia. }
  destruct (slice_is raw i 5 "&#39;") eqn:E3.
  { apply slice_is_bound in E3; [|reflexivity|reflexivity].
    f_equal. apply (Hskip 4%N). lia. }
  reflexivity.
Qed.

(** Where the input has none of the four spellings, the two opening tests
    fail. *)
Lemma no_script_style_spec raw i :
  no_script_style raw = true -> (i < size raw)%N ->
  is_script_open raw i = Ok false /\ is_style_open raw i = Ok false.
Proof.
  unfold no_script_style. intros H Hi. rewrite forallb_forall in H.
  assert (Hseq : In (N.to_nat i) (seq 0 (length raw)))
    by (apply in_seq; unfold size in Hi; lia).
  specialize (H _ Hseq). apply negb_true_iff in H.
  rewrite !starts_with_slice in H.
  cbn [String.length N.of_nat Pos.of_succ_nat Pos.succ] in H.
  apply orb_false_iff in H as [H H4]. apply orb_false_iff in H as [H H3].
  apply orb_false_iff in H as [H1 H2].
  assert (P8 : forall s8 s7 : string,
             slice_is raw i 7 s7 = false ->
             N.of_nat (length (bytes s8)) = 8%N ->
             firstn 7 (bytes s8) = bytes s7 ->
             slice_is raw i 8 s8 = false).
  { intros s8 s7 H7 Hl Hf. destruct (slice_is raw i 8 s8) eqn:E; [|reflexivity].
    pose proof (slice_is_bound _ _ _ _ E eq_refl Hl) as Hb.
    apply slice_is_spec in E.
    assert (slice raw i 7 = bytes s7) as E7.
    { rewrite <- Hf, <- E. unfold slice.
      rewrite firstn_firstn. reflexivity. }
    apply slice_is_spec in E7. congruence. }
  assert (P7 : forall s7 s6 : string,
             slice_is raw i 6 s6 = false ->
             N.of_nat (length (bytes s7)) = 7%N ->
             firstn 6 (bytes s7) = bytes s6 ->
             slice_is raw i 7 s7 = false).
  { intros s7 s6 H6 Hl Hf. destruct (slice_is raw i 7 s7) eqn:E; [|reflexivity].
    pose proof (slice_is_bound _ _ _ _ E eq_refl Hl) as Hb.
    apply slice_is_spec in E.
    assert (slice raw i 6 = bytes s6) as E6.
    { rewrite <- Hf, <- E. unfold slice.
      rewrite firstn_firstn. reflexivity. }
    apply slice_is_spec in E6. congruence. }
  split.
  - unfold is_script_open, andM, orM. rewrite !substr_is_ok by lia.
    rewrite H1, H2, (P8 "<script "%string "<script"%string H1 eq_refl eq_refl),
      (P8 "<SCRIPT "%string "<SCRIPT"%string H2 eq_refl eq_refl).
    cbn [bind]. destruct (i + 6 <? size raw)%N; [|reflexivity].
    destruct (i + 7 <? size raw)%N; reflexivity.
  - unfold is_style_open, andM, orM. rewrite !substr_is_ok by lia.
    rewrite H3, H4, (P7 "<style "%string "<style"%string H3 eq_refl eq_refl),
      (P7 "<STYLE "%string "<STYLE"%string H4 eq_refl eq_refl).
    cbn [bind]. destruct (i + 5 <? size raw)%N; [|reflexivity].
    destruct (i + 6 <? size raw)%N; reflexivity.
Qed.

Lemma fold_norm_last_space l w :
  isspace w = true -> snd (fold_left norm_step (l ++ [w]) ([], false)) = true.
Proof.
  intros Hw. rewrite fold_left_app. cbn [fold_left]. unfold norm_step.
  rewrite Hw. now destruct (snd (fold_left _ l ([], false))) eqn:E.
Qed.

Lemma norm_step_space acc c d :
  isspace c = true -> isspace d = true -> norm_step acc c = norm_step acc d.
Proof. intros Hc Hd. unfold norm_step. now rewrite Hc, Hd. Qed.

Lemma last_snoc_cases (l : list ascii) :
  l = [] \/ exists x, l = x ++ [last l zero].
Proof.
  destruct l as [|a l]; [now left|]. right.
  exists (removelast (a :: l)). apply app_removelast_last. discriminate.
Qed.

(** One iteration outside script and style elements, where no such element
    opens: the characters still to come and those kept so far normalize to
    the same text before and after. *)
Lemma html_body_strip raw T i st i' st' :
  (i < size raw)%N ->
  is_script_open raw i = Ok false -> is_style_open raw i = Ok false ->
  in_script st = false -> in_style st = false ->
  fst (fold_left norm_step
         (strip_markup 0 (in_tag st) (skipn (N.to_nat i) raw))
         (fold_left norm_step (clean st) ([], false))) = T ->
  html_body raw i st = Ok (i', st') ->
  in_script st' = false /\ in_style st' = false /\
  fst (fold_left norm_step
         (strip_markup 0 (in_tag st') (skipn (N.to_nat (i' + 1)) raw))
         (fold_left norm_step (clean st') ([], false))) = T.
Proof.
  intros Hi Eso Esy Hs Hy Hinv Eb.
  rewrite strip_markup_at in Hinv by exact Hi.
  unfold html_body in Eb. rewrite Eso, Esy, Hs, Hy in Eb.
  cbn [bind andb orb] in Eb.
  destruct (at_ raw i =? "<")%char.
  { injection Eb as <- <-. cbn [in_script in_style in_tag clean]. auto. }
  destruct (at_ raw i =? ">")%char.
  { injection Eb as <- <-. cbn [in_script in_style in_tag clean]. auto. }
  destruct (in_tag st) eqn:Et.
  { injection Eb as <- <-. rewrite Hs, Hy, Et. auto. }
  destruct ((at_ raw i =? newline) || (at_ raw i =? carriage_return))%char
    eqn:Enl.
  { assert (Hsp : isspace (at_ raw i) = true).
    { apply orb_true_iff in Enl as [H|H]; apply Ascii.eqb_eq in H;
        now rewrite H. }
    assert (Hent : entity_at raw i = None).
    { destruct (entity_at raw i) as [[d k]|] eqn:He; [|reflexivity].
      destruct (entity_at_semicolon raw i d k He) as [Hamp _].
      rewrite Hamp in Hsp. discriminate. }
    rewrite Hent in Hinv. cbn [fold_left] in Hinv.
    destruct (is_empty (clean st)
              || negb (last (clean st) zero =? newline)%char) eqn:Epush;
      injection Eb as <- <-; cbn [push in_script in_style in_tag clean];
      (split; [exact Hs|]); (split; [exact Hy|]).
    - rewrite fold_left_app. cbn [fold_left].
      rewrite Et, (norm_step_space _ newline (at_ raw i) eq_refl Hsp).
      exact Hinv.
    - rewrite Et. rewrite <- Hinv. f_equal. f_equal.
      apply orb_false_iff in Epush as [Hemp Hlast].
      apply negb_false_iff, Ascii.eqb_eq in Hlast.
      destruct (last_snoc_cases (clean st)) as [Hnil|(x & Hx)];
        [rewrite Hnil in Hemp; discriminate|].
      pose proof (fold_norm_last_space x (last (clean st) zero)) as Hl.
      rewrite <- Hx, Hlast in Hl. specialize (Hl eq_refl).
      revert Hl. generalize (fold_left norm_step (clean st) ([], false)).
      intros acc Hl. unfold norm_step. now rewrite Hsp, Hl. }
  assert (Er : (if (at_ raw i =? "&")%char && (i + 1 <? size raw)%N
                then decode_entity raw i else Ok None)
               = Ok (entity_at raw i)).
  { destruct (entity_at raw i) as [[d k]|] eqn:He.
    - destruct (entity_at_semicolon raw i d k He) as [Hamp _].
      destruct (entity_at_cases raw i d k He) as (Hk & Hk1 & _).
      rewrite Hamp, Ascii.eqb_refl.
      destruct (N.ltb_spec (i + 1) (size raw)); [|lia]. cbn [andb].
      now rewrite decode_entity_ok, He.
    - destruct ((at_ raw i =? "&")%char && (i + 1 <? size raw)%N);
        [now rewrite decode_entity_ok, He | reflexivity]. }
  rewrite Er in Eb. cbn [bind] in Eb.
  destruct (entity_at raw i) as [[d k]|]; injection Eb as <- <-;
    cbn [push in_script in_style in_tag clean];
    (split; [exact Hs|]); (split; [exact Hy|]);
    rewrite Et, fold_left_app; exact Hinv.
Qed.

(** On an input without script and style elements, CleanHtml is: drop the
    tags, decode the three entities, collapse each run of whitespace into
    one space. *)
Theorem CleanHtml_strips_markup raw :
  no_script_style raw = true ->
  CleanHtml raw = Ok (normalize_ws (strip_markup 0 false raw)).
Proof.
  intros Hno.
  destruct (CleanHtml_inv raw
              (fun i st =>
                 in_script st = false /\ in_style st = false /\
                 fst (fold_left norm_step
                        (strip_markup 0 (in_tag st) (skipn (N.to_nat i) raw))
                        (fold_left norm_step (clean st) ([], false)))
                 = normalize_ws (strip_markup 0 false raw)))
    as (st & (_ & _ & Hfin) & E).
  - intros i st i' st' Hi (Hs & Hy & Hinv) Eb.
    destruct (no_script_style_spec raw i Hno Hi) as [Eso Esy].
    exact (html_body_strip raw _ i st i' st' Hi Eso Esy Hs Hy Hinv Eb).
  - repeat split; reflexivity.
  - rewrite E. f_equal. rewrite <- Hfin.
    rewrite skipn_all2 by (unfold size; lia). reflexivity.
Qed.

Lemma CleanHtml_strips_markup_witness :
  no_script_style
    (bytes "<p class=x>Tom &amp; <b>Jerry</b></p>" ++ [newline; newline]
       ++ bytes "<Script>1 &lt; 2") = true /\
  CleanHtml
    (bytes "<p class=x>Tom &amp; <b>Jerry</b></p>" ++ [newline; newline]
       ++ bytes "<Script>1 &lt; 2")
  = Ok (bytes "Tom & Jerry 1 &lt; 2").
Proof.
  split; [reflexivity|].
  rewrite (CleanHtml_strips_markup
             (bytes "<p class=x>Tom &amp; <b>Jerry</b></p>" ++ [newline; newline]
                ++ bytes "<Script>1 &lt; 2") eq_refl).
  reflexivity.
Defined.

(** ** CleanHtml on a script element *)

Lemma slice_is_prefix raw i n m s t :
  slice_is raw i m t = false ->
  (0 < n)%N -> (m <= n)%N -> N.of_nat (length (bytes s)) = n ->
  firstn (N.to_nat m) (bytes s) = bytes t ->
  slice_is raw i n s = false.
Proof.
  intros Hm Hpos Hle Hl Hf.
  destruct (slice_is raw i n s) eqn:E; [|reflexivity].
  apply slice_is_spec in E.
  assert (slice raw i m = bytes t) as Em.
  { rewrite <- Hf, <- E. unfold slice. rewrite firstn_firstn.
    now rewrite Nat.min_l by lia. }
  apply slice_is_spec in Em. congruence.
Qed.

Lemma slice_is_at raw i n s j :
  slice_is raw i n s = true -> (0 < n)%N ->
  N.of_nat (length (bytes s)) = n -> (j < n)%N ->
  at_ raw (i + j) = nth (N.to_nat j) (bytes s) zero.
Proof.
  intros H Hpos Hl Hj.
  pose proof (slice_is_bound _ _ _ _ H Hpos Hl) as Hb.
  apply slice_is_spec in H. rewrite <- H. symmetry. now apply slice_nth.
Qed.

Lemma is_style_open_false raw i :
  (i < size raw)%N -> style_open_at raw (N.to_nat i) = false ->
  is_style_open raw i = Ok false.
Proof.
  intros Hi H. unfold style_open_at in H. rewrite !starts_with_slice in H.
  cbn [String.length N.of_nat Pos.of_succ_nat Pos.succ] in H.
  apply orb_false_iff in H as [H3 H4].
  unfold is_style_open, andM, orM. rewrite !substr_is_ok by lia.
  rewrite H3, H4,
    (slice_is_prefix raw i 7 6 "<style "%string "<style"%string H3
       eq_refl ltac:(lia) eq_refl eq_refl),
    (slice_is_prefix raw i 7 6 "<STYLE "%string "<STYLE"%string H4
       eq_refl ltac:(lia) eq_refl eq_refl).
  cbn [bind]. destruct (i + 5 <? size raw)%N; [|reflexivity].
  destruct (i + 6 <? size raw)%N; reflexivity.
Qed.

Lemma look_back_skip raw p k :
  (forall j, (p < j <= p + k)%nat -> nth j raw zero <> "<"%char) ->
  look_back raw (p + k) = look_back raw p.
Proof.
  induction k as [|k IH]; intros H; [now rewrite Nat.add_0_r|].
  replace (p + S k)%nat with (S (p + k)) by lia. cbn [look_back].
  destruct (Ascii.eqb_spec (nth (S (p + k)) raw zero) "<") as [E|_].
  - exfalso. apply (H (S (p + k))); [lia|exact E].
  - apply IH. intros j Hj. apply H. lia.
Qed.

Lemma look_back_here raw p :
  nth p raw zero = "<"%char -> look_back raw p = p.
Proof.
  intros H. destruct p as [|p]; [reflexivity|]. cbn [look_back].
  now rewrite H.
Qed.

Lemma look_back_found raw p :
  (0 < look_back raw p)%nat -> nth (look_back raw p) raw zero = "<"%char.
Proof.
  induction p as [|p IH]; cbn [look_back]; [lia|].
  destruct (Ascii.eqb_spec (nth (S p) raw zero) "<") as [E|_]; auto.
Qed.

(** The closing test of lines 104-109 in terms of the tag that the look
    back finds. *)
Lemma closes_script_spec raw i :
  (i < size raw)%N ->
  closes_element raw i 9 "</script>" "</SCRIPT>"
  = Ok ((0 <? look_back raw (N.to_nat i))%nat
        && script_close_at raw (look_back raw (N.to_nat i))).
Proof.
  intros Hi. unfold closes_element, andM, orM, script_close_at.
  pose proof (look_back_le raw (N.to_nat i)).
  rewrite !substr_is_ok by lia. cbn [bind].
  pose proof (starts_with_slice raw (N.of_nat (look_back raw (N.to_nat i))))
    as Hsw. rewrite Nat2N.id in Hsw. rewrite !Hsw.
  cbn [String.length N.of_nat Pos.of_succ_nat Pos.succ].
  destruct (look_back raw (N.to_nat i)) as [|p]; [reflexivity|].
  replace (0 <? N.of_nat (S p))%N with true by (symmetry; apply N.ltb_lt; lia).
  cbn [Nat.ltb Nat.leb andb].
  destruct (slice_is raw (N.of_nat (S p)) 9 "</script>"); reflexivity.
Qed.

Ltac tag_bytes H :=
  let Hb := fresh "Hb" in
  let Hat := fresh "Hat" in
  pose proof (slice_is_bound _ _ _ _ H eq_refl eq_refl) as Hb;
  pose proof (fun j => slice_is_at _ _ _ _ j H eq_refl eq_refl) as Hat;
  split; [exact Hb|];
  split; [rewrite <- (N.add_0_r (N.of_nat _)); rewrite Hat by lia;
          reflexivity|];
  split; [rewrite Hat by lia; reflexivity|];
  split; [rewrite Hat by lia; reflexivity|];
  let j := fresh "j" in
  let Hj := fresh "Hj" in
  intros j Hj;
  assert (j = 1 \/ j = 2 \/ j = 3 \/ j = 4 \/ j = 5 \/ j = 6 \/ j = 7
          \/ j = 8)%N as Hc by lia;
  repeat (destruct Hc as [Hc|Hc]);
  subst j; rewrite Hat by lia; cbn;
  (split; [discriminate|intros; first [lia|discriminate]]).

(** A closing script tag at [p]: its bytes. *)
Lemma script_close_at_bytes raw p :
  script_close_at raw p = true ->
  (N.of_nat p + 9 <= size raw)%N /\
  at_ raw (N.of_nat p) = "<"%char /\
  at_ raw (N.of_nat p + 1) = "/"%char /\
  at_ raw (N.of_nat p + 8) = ">"%char /\
  forall j, (1 <= j <= 8)%N ->
            at_ raw (N.of_nat p + j) <> "<"%char /\
            ((j < 8)%N -> at_ raw (N.of_nat p + j) <> ">"%char).
Proof.
  unfold script_close_at. intros H.
  pose proof (starts_with_slice raw (N.of_nat p)) as Hsw.
  rewrite Nat2N.id in Hsw. rewrite !Hsw in H.
  cbn [String.length N.of_nat Pos.of_succ_nat Pos.succ] in H.
  apply orb_true_iff in H as [H|H]; tag_bytes H.
Qed.

Ltac script_cases :=
  cbn [in_script in_style in_tag clean]; repeat split; auto 8;
  try (left; split; [first [assumption | reflexivity]|]; intros;
       first [congruence | lia]).

(** While [in_script] holds, an iteration adds nothing to [clean] and
    clears [in_script] only by the closing test. *)
Lemma html_body_in_script raw i st i' st' :
  (i < size raw)%N -> in_script st = true ->
  html_body raw i st = Ok (i', st') ->
  i' = i /\ clean st' = clean st /\
  (in_script st' = true /\
   (at_ raw i = ">"%char -> (i + 8 < size raw)%N ->
    closes_element raw i 9 "</script>" "</SCRIPT>" = Ok false) \/
   at_ raw i = ">"%char /\ (i + 8 < size raw)%N /\
   closes_element raw i 9 "</script>" "</SCRIPT>" = Ok true /\
   st' = mkHtml false (in_style st) false (clean st)) /\
  (in_style st' = in_style st \/
   at_ raw i = "<"%char /\ is_style_open raw i = Ok true \/
   at_ raw i = ">"%char /\ ~ (i + 8 < size raw)%N).
Proof.
  intros Hi Hs Eb. unfold html_body in Eb. rewrite Hs in Eb.
  destruct (Ascii.eqb_spec (at_ raw i) "<") as [Hlt|Hlt].
  { destruct (is_script_open_ok raw i Hi) as (so & Eso).
    rewrite Eso in Eb. cbn [bind] in Eb.
    destruct so; [injection Eb as <- <-; script_cases|].
    destruct (is_style_open_ok raw i Hi) as (sy & Esy).
    rewrite Esy in Eb. cbn [bind] in Eb.
    destruct sy; injection Eb as <- <-; script_cases. }
  destruct (Ascii.eqb_spec (at_ raw i) ">") as [Hgt|Hgt].
  { cbn [andb] in Eb.
    destruct (N.ltb_spec (i + 8) (size raw)) as [H8|H8].
    - destruct (closes_element_ok raw i 9 "</script>" "</SCRIPT>" Hi)
        as (cl & Ecl).
      rewrite Ecl in Eb. cbn [bind] in Eb.
      destruct cl; injection Eb as <- <-; script_cases.
    - destruct (in_style st && (i + 7 <? size raw)%N).
      + destruct (closes_element_ok raw i 8 "</style>" "</STYLE>" Hi)
          as (cl & Ecl).
        rewrite Ecl in Eb. cbn [bind] in Eb.
        injection Eb as <- <-. script_cases.
        right. right. split; [exact Hgt|lia].
      + injection Eb as <- <-. script_cases. }
  cbn [orb] in Eb. injection Eb as <- <-. script_cases.
Qed.

Lemma starts_with_script_open raw :
  starts_with "<script" raw = true ->
  (7 <= size raw)%N /\ at_ raw 0 = "<"%char /\ at_ raw 1 = "s"%char /\
  is_script_open raw 0 = Ok true.
Proof.
  intros H. pose proof (starts_with_slice raw 0 "<script") as Hsw.
  cbn [N.to_nat skipn String.length N.of_nat Pos.of_succ_nat Pos.succ] in Hsw.
  rewrite Hsw in H.
  pose proof (slice_is_bound _ _ _ _ H eq_refl eq_refl) as Hb.
  split; [lia|].
  split; [exact (slice_is_at _ _ _ _ 0%N H eq_refl eq_refl eq_refl)|].
  split; [exact (slice_is_at _ _ _ _ 1%N H eq_refl eq_refl eq_refl)|].
  unfold is_script_open, andM, orM. rewrite !substr_is_ok by lia.
  rewrite H. cbn [bind].
  destruct (N.ltb_spec (0 + 6) (size raw)); [reflexivity|lia].
Qed.

(** A script element that is not closed swallows the rest of the input, and
    a closing script tag counts only when at least eight bytes follow its
    '>': for an input that starts with a script element whose closing tag
    has less than eight bytes after it, CleanHtml returns the empty text,
    and the text after the closing tag is lost. *)
Theorem CleanHtml_script_close_near_end raw :
  starts_with "<script" raw = true ->
  script_close_near_end raw = true ->
  CleanHtml raw = Ok [].
Proof.
  intros Hopen Hnear.
  destruct (starts_with_script_open raw Hopen) as (Hlen & H0 & _ & Eso).
  destruct (CleanHtml_inv raw
              (fun i st =>
                 (i = 0%N /\ st = html_init) \/
                 (in_script st = true /\ clean st = [])))
    as (st & HP & E).
  - intros i st i' st' Hi [[-> ->]|[Hs Hc]] Eb.
    + unfold html_body in Eb. rewrite H0, Eso in Eb. cbn in Eb.
      injection Eb as <- <-. right. auto.
    + destruct (html_body_in_script raw i st i' st' Hi Hs Eb)
        as (-> & Hcl & [[Hs' _]|(Hgt & H8 & Ecl & _)] & _);
        [right; split; congruence|].
      exfalso. rewrite closes_script_spec in Ecl by exact Hi.
      injection Ecl as Ecl. apply andb_true_iff in Ecl as [Hpos Hclose].
      apply Nat.ltb_lt in Hpos.
      pose proof (look_back_le raw (N.to_nat i)) as Hle.
      set (p := look_back raw (N.to_nat i)) in *.
      destruct (script_close_at_bytes raw p Hclose) as (Hb & _ & _ & _ & Hj).
      unfold script_close_near_end in Hnear. rewrite forallb_forall in Hnear.
      assert (Hin : In p (seq 0 (length raw)))
        by (apply in_seq; unfold size in *; lia).
      specialize (Hnear p Hin). rewrite Hclose in Hnear. cbn in Hnear.
      apply Nat.leb_le in Hnear.
      assert (Hfar : (N.of_nat p + 8 <= i)%N).
      { destruct (N.le_gt_cases (N.of_nat p + 8) i) as [|Hlt]; [assumption|].
        exfalso.
        assert (Hne : N.of_nat p <> i).
        { intros Hpi. pose proof (look_back_found raw (N.to_nat i)) as Hf.
          fold p in Hf. specialize (Hf Hpos). unfold at_ in Hgt.
          replace (N.to_nat i) with p in Hgt by lia. congruence. }
        destruct (Hj (i - N.of_nat p)%N ltac:(lia)) as [_ Hngt].
        replace (N.of_nat p + (i - N.of_nat p))%N with i in Hngt by lia.
        apply Hngt; [lia|exact Hgt]. }
      unfold size in *. lia.
  - now left.
  - rewrite E. destruct HP as [[Hz _]|[_ ->]]; [lia|reflexivity].
Qed.

Lemma CleanHtml_script_close_near_end_witness :
  starts_with "<script" (bytes "<script>go()</script>The end") = true /\
  script_close_near_end (bytes "<script>go()</script>The end") = true /\
  CleanHtml (bytes "<script>go()</script>The end") = Ok [].
Proof.
  split; [reflexivity|]. split; [reflexivity|].
  exact (CleanHtml_script_close_near_end
           (bytes "<script>go()</script>The end") eq_refl eq_refl).
Defined.

Lemma is_script_open_false raw i :
  (i < size raw)%N ->
  starts_with "<script" (skipn (N.to_nat i) raw) = false ->
  starts_with "<SCRIPT" (skipn (N.to_nat i) raw) = false ->
  is_script_open raw i = Ok false.
Proof.
  intros Hi H1 H2. rewrite !starts_with_slice in H1, H2.
  cbn [String.length N.of_nat Pos.of_succ_nat Pos.succ] in H1, H2.
  unfold is_script_open, andM, orM. rewrite !substr_is_ok by lia.
  rewrite H1, H2,
    (slice_is_prefix raw i 8 7 "<script "%string "<script"%string H1
       eq_refl ltac:(lia) eq_refl eq_refl),
    (slice_is_prefix raw i 8 7 "<SCRIPT "%string "<SCRIPT"%string H2
       eq_refl ltac:(lia) eq_refl eq_refl).
  cbn [bind]. destruct (i + 6 <? size raw)%N; [|reflexivity].
  destruct (i + 7 <? size raw)%N; reflexivity.
Qed.

(** The opening tests fail at every index of a tail of the input that has
    none of the four spellings. *)
Lemma no_script_style_tail raw k i :
  no_script_style (skipn k raw) = true ->
  (N.of_nat k <= i < size raw)%N ->
  is_script_open raw i = Ok false /\ is_style_open raw i = Ok false.
Proof.
  unfold no_script_style. intros H Hi. rewrite forallb_forall in H.
  assert (Hseq : In (N.to_nat i - k)%nat (seq 0 (length (skipn k raw))))
    by (apply in_seq; rewrite length_skipn; unfold size in Hi; lia).
  specialize (H _ Hseq). apply negb_true_iff in H.
  rewrite !skipn_skipn in H.
  replace (N.to_nat i - k + k)%nat with (N.to_nat i) in H by lia.
  apply orb_false_iff in H as [H H4]. apply orb_false_iff in H as [H H3].
  apply orb_false_iff in H as [H1 H2].
  split; [apply is_script_open_false; (lia || assumption)|].
  apply is_style_open_false; [lia|]. unfold style_open_at.
  now rewrite H3, H4.
Qed.

(** A leading script element is removed with all it holds, and the text
    after it is cleaned as markup without script and style elements is:
    when the input starts with a script element, its first closing tag
    starts at [e] with no style element opening before it, at least eight
    bytes follow the closing tag and no script or style element opens in
    them, CleanHtml returns the cleaned text of the bytes after the closing
    tag. *)
Theorem CleanHtml_leading_script raw e :
  starts_with "<script" raw = true ->
  script_close_at raw e = true ->
  script_body_until raw e = true ->
  (e + 17 <= length raw)%nat ->
  no_script_style (skipn (e + 9) raw) = true ->
  CleanHtml raw
  = Ok (normalize_ws (strip_markup 0 false (skipn (e + 9) raw))).
Proof.
  intros Hopen Hclose Hbody Hlen Hno.
  destruct (starts_with_script_open raw Hopen) as (_ & H0 & H1 & Eso).
  destruct (script_close_at_bytes raw e Hclose) as (Hb & He & Hsl & Hgt & Hj).
  assert (Hepos : (0 < e)%nat).
  { destruct e; [|lia]. exfalso. cbn [N.of_nat N.add] in Hsl. congruence. }
  assert (Hbefore : forall p, (p < e)%nat ->
             script_close_at raw p = false /\ style_open_at raw p = false).
  { intros p Hp. unfold script_body_until in Hbody.
    rewrite forallb_forall in Hbody.
    assert (Hin : In p (seq 0 e)) by (apply in_seq; lia).
    specialize (Hbody p Hin). apply andb_true_iff in Hbody as [A B].
    now rewrite negb_true_iff in A, B. }
  assert (Hstyle_e : style_open_at raw e = false).
  { destruct (style_open_at raw e) eqn:Es; [|reflexivity]. exfalso.
    unfold style_open_at in Es.
    pose proof (starts_with_slice raw (N.of_nat e)) as Hsw.
    rewrite Nat2N.id in Hsw. rewrite !Hsw in Es.
    cbn [String.length N.of_nat Pos.of_succ_nat Pos.succ] in Es.
    apply orb_true_iff in Es as [Es|Es];
      rewrite (slice_is_at _ _ _ _ 1%N Es eq_refl eq_refl eq_refl) in Hsl;
      discriminate. }
  assert (Hlb : look_back raw (e + 8) = e).
  { rewrite look_back_skip.
    - apply look_back_here. unfold at_ in He. now rewrite Nat2N.id in He.
    - intros j Hjr. destruct (Hj (N.of_nat (j - e))) as [Hne _]; [lia|].
      unfold at_ in Hne.
      replace (N.to_nat (N.of_nat e + N.of_nat (j - e))) with j in Hne by lia.
      exact Hne. }
  destruct (CleanHtml_inv raw
              (fun i st =>
                 (i = 0%N /\ st = html_init) \/
                 ((0 < i <= N.of_nat e + 8)%N /\ in_script st = true /\
                  in_style st = false /\ clean st = []) \/
                 ((N.of_nat e + 9 <= i)%N /\ in_script st = false /\
                  in_style st = false /\
                  fst (fold_left norm_step
                         (strip_markup 0 (in_tag st)
                            (skipn (N.to_nat i) raw))
                         (fold_left norm_step (clean st) ([], false)))
                  = normalize_ws
                      (strip_markup 0 false (skipn (e + 9) raw)))))
    as (st & HP & Eq).
  - intros i st i' st' Hi
      [[-> ->]|[(Hr & Hs & Hy & Hc)|(Hr & Hs & Hy & Hinv)]] Eb.
    + unfold html_body in Eb. rewrite H0, Eso in Eb. cbn in Eb.
      injection Eb as <- <-. right. left. cbn. repeat split; auto; lia.
    + destruct (html_body_in_script raw i st i' st' Hi Hs Eb)
        as (-> & Hcl & Hscr & Hsty).
      assert (Hy' : in_style st' = false).
      { destruct Hsty as [->|[[Hlt Esy]|[_ Hn8]]];
          [exact Hy| |unfold size in *; lia].
        exfalso.
        assert (Hso : style_open_at raw (N.to_nat i) = false).
        { destruct (Nat.lt_trichotomy (N.to_nat i) e) as [Hlt'|[Heq|Hgt']].
          - now apply Hbefore.
          - rewrite Heq. exact Hstyle_e.
          - exfalso. destruct (Hj (i - N.of_nat e)%N) as [Hne _]; [lia|].
            replace (N.of_nat e + (i - N.of_nat e))%N with i in Hne by lia.
            contradiction. }
        rewrite (is_style_open_false raw i Hi Hso) in Esy. discriminate. }
      destruct Hscr as [[Hs' Hnc]|(Hg & H8 & Ecl & Est)].
      * right. left.
        assert (Hne : i <> (N.of_nat e + 8)%N).
        { intros ->.
          assert (H8' : (N.of_nat e + 8 + 8 < size raw)%N)
            by (unfold size; lia).
          specialize (Hnc Hgt H8').
          rewrite closes_script_spec in Hnc by exact Hi.
          replace (N.to_nat (N.of_nat e + 8)) with (e + 8)%nat in Hnc by lia.
          rewrite Hlb, Hclose in Hnc.
          destruct e; [lia|]. discriminate. }
        repeat split; try assumption; try lia. congruence.
      * right. right.
        rewrite closes_script_spec in Ecl by exact Hi.
        injection Ecl as Ecl. apply andb_true_iff in Ecl as [Hpos Hcl'].
        apply Nat.ltb_lt in Hpos.
        pose proof (look_back_le raw (N.to_nat i)) as Hle.
        pose proof (look_back_found raw (N.to_nat i) Hpos) as Hfound.
        remember (look_back raw (N.to_nat i)) as p eqn:Ep. clear Ep.
        assert (Hp : p = e).
        { destruct (Nat.lt_trichotomy p e) as [Hlt'|[Heq|Hgt']];
            [|exact Heq|].
          - destruct (Hbefore p Hlt') as [Hx _]. congruence.
          - exfalso.
            destruct (Hj (N.of_nat p - N.of_nat e)%N) as [Hne _]; [lia|].
            apply Hne. unfold at_.
            replace (N.to_nat (N.of_nat e + (N.of_nat p - N.of_nat e)))
              with p by lia.
            exact Hfound. }
        subst p.
        assert (Hi8 : i = (N.of_nat e + 8)%N).
        { destruct (N.eq_dec i (N.of_nat e + 8)) as [|Hne]; [assumption|].
          exfalso.
          assert (Hie : i <> N.of_nat e)
            by (intros ->; rewrite He in Hg; discriminate).
          destruct (Hj (i - N.of_nat e)%N) as [_ Hngt]; [lia|].
          replace (N.of_nat e + (i - N.of_nat e))%N with i in Hngt by lia.
          apply Hngt; [lia|exact Hg]. }
        subst i st'. cbn [in_script in_style in_tag clean].
        repeat split; [lia|exact Hy|].
        rewrite Hc.
        replace (N.to_nat (N.of_nat e + 8 + 1)) with (e + 9)%nat by lia.
        reflexivity.
    + destruct (no_script_style_tail raw (e + 9) i Hno) as [Eso' Esy'];
        [lia|].
      destruct (html_body_spec raw i st Hi) as (i2 & st2 & E2 & Hb2 & _).
      rewrite Eb in E2. injection E2 as <- <-.
      destruct (html_body_strip raw _ i st i' st' Hi Eso' Esy' Hs Hy Hinv Eb)
        as (A & B & C).
      right. right. repeat split; auto. lia.
  - now left.
  - rewrite Eq. f_equal.
    destruct HP as [[Hz _]|[(Hr & _)|(_ & _ & _ & Hfin)]];
      [unfold size in *; lia..|].
    rewrite <- Hfin. rewrite skipn_all2 by (unfold size; lia). reflexivity.
Qed.

Lemma CleanHtml_leading_script_witness :
  starts_with "<script"
    (bytes "<script type=x>if (a > b) { go(); }</script>Hello &amp; <b>bye</b>")
  = true /\
  script_close_at
    (bytes "<script type=x>if (a > b) { go(); }</script>Hello &amp; <b>bye</b>")
    35 = true /\
  CleanHtml
    (bytes "<script type=x>if (a > b) { go(); }</script>Hello &amp; <b>bye</b>")
  = Ok (bytes "Hello & bye").
Proof.
  split; [reflexivity|]. split; [reflexivity|].
  rewrite (CleanHtml_leading_script
             (bytes "<script type=x>if (a > b) { go(); }</script>Hello &amp; <b>bye</b>")
             35 eq_refl eq_refl eq_refl);
    [reflexivity | cbn; lia | reflexivity].
Defined.

(** ** ExtractContent *)

(** ExtractContent raises a [TypeError] exactly when its first argument is
    missing or is not a string; for a string it always returns a text, which
    is no longer than the argument and holds neither '<' nor '>'. *)
Theorem ExtractContent_rejects_iff info :
  (rejected (ExtractContent info) <->
   forall s, nth_error info 0 <> Some (JsString s)) /\
  (rejected (ExtractContent info) -> ExtractContent info = Throw TypeError) /\
  (forall html,
      nth_error info 0 = Some (JsString html) ->
      exists text,
        ExtractContent info = Ok text /\
        (length text <= length (bytes html))%nat /\
        ~ In "<"%char text /\ ~ In ">"%char text).
Proof.
  unfold ExtractContent.
  destruct (nth_error info 0) as [[input|n|]|] eqn:E0.
  - destruct (CleanHtml_inv (bytes input)
                (fun i st =>
                   (size (clean st) <= i)%N /\ Forall no_angle (clean st)))
      as (st & (Hlen & Hang) & E).
    { intros i st i' st' Hi (HP & HA) Eb.
      destruct (html_body_spec (bytes input) i st Hi)
        as (j & st1 & E1 & Hb & Hc).
      rewrite Eb in E1. injection E1 as <- <-.
      destruct Hc as [->|(c & -> & Hna)]; split; auto;
        unfold size in *; rewrite ?length_app; cbn [length]; try lia.
      apply Forall_app. split; auto. }
    { split; [cbn; lia|constructor]. }
    rewrite E. split; [split|split].
    + intros (e & He). discriminate.
    + intros H. now contradiction (H input).
    + intros (e & He). discriminate.
    + intros html Hh. injection Hh as <-. eexists. split; [reflexivity|].
      rewrite normalize_ws_norm_from.
      pose proof (norm_from_length (clean st) false) as Hn.
      assert (H : Forall no_angle (norm_from false (clean st)))
        by (apply norm_from_Forall; [split; discriminate | exact Hang]).
      rewrite Forall_forall in H. unfold size in Hlen.
      split; [lia|].
      split; intros Hin; destruct (H _ Hin) as [H1 H2]; congruence.
  - split; [split|split]; try reflexivity.
    + intros _ s. discriminate.
    + intros _. now exists TypeError.
    + intros html Hh. discriminate.
  - split; [split|split]; try reflexivity.
    + intros _ s. discriminate.
    + intros _. now exists TypeError.
    + intros html Hh. discriminate.
  - split; [split|split]; try reflexivity.
    + intros _ s. discriminate.
    + intros _. now exists TypeError.
    + intros html Hh. discriminate.
Qed.

(** ** The unescaping loop of Execute *)

Lemma unescaped_at content i :
  (i < size content)%N ->
  unescaped (skipn (N.to_nat i) content)
  = let r := unescape_body content i [] in
    snd r ++ unescaped (skipn (N.to_nat (fst r + 1)) content).
Proof.
  intros Hi. rewrite (skipn_at content i Hi). unfold unescape_body.
  cbn [unescaped].
  destruct (at_ content i =? backslash)%char eqn:Eb; [|reflexivity].
  destruct (N.ltb_spec (i + 1) (size content)) as [H1|H1]; cbn [andb].
  - pose proof (skipn_at content (i + 1) H1) as Htl. rewrite Htl.
    destruct (at_ content (i + 1) =? "n")%char; [reflexivity|].
    destruct (at_ content (i + 1) =? "t")%char; [reflexivity|].
    destruct (at_ content (i + 1) =? "r")%char; [reflexivity|].
    destruct (at_ content (i + 1) =? backslash)%char; [reflexivity|].
    destruct (at_ content (i + 1) =? double_quote)%char; [reflexivity|].
    cbn [fst snd app]. now rewrite Htl.
  - rewrite skipn_all2 by (unfold size in *; lia). cbn [fst snd app].
    rewrite skipn_all2 by (unfold size in *; lia). reflexivity.
Qed.

Lemma unescape_body_acc content i out :
  unescape_body content i out
  = (fst (unescape_body content i []), out ++ snd (unescape_body content i [])).
Proof.
  unfold unescape_body.
  repeat match goal with
         | |- context [if ?b then _ else _] => destruct b
         end; reflexivity.
Qed.

Lemma unescape_body_bounds content i :
  (i < size content)%N ->
  (i <= fst (unescape_body content i []) < size content)%N.
Proof.
  intros Hi. unfold unescape_body.
  destruct (at_ content i =? backslash)%char; cbn [andb fst]; [|lia].
  destruct (N.ltb_spec (i + 1) (size content)); cbn [fst]; [|lia].
  repeat match goal with
         | |- context [if ?b then _ else _] => destruct b
         end; cbn [fst]; lia.
Qed.

(** The loop returns the text unescaped from left to right. *)
Lemma unescape_loop_unescaped content : forall fuel i out,
  (size content <= i + N.of_nat fuel)%N -> (i <= size content)%N ->
  unescape_loop content fuel i out
  = Ok (out ++ unescaped (skipn (N.to_nat i) content)).
Proof.
  induction fuel as [|fuel IH]; intros i out Hf Hi; cbn [unescape_loop].
  - destruct (N.ltb_spec i (size content)); [lia|].
    rewrite skipn_all2 by (unfold size in *; lia). cbn. now rewrite app_nil_r.
  - destruct (N.ltb_spec i (size content)) as [Hlt|Hge].
    + pose proof (unescape_body_bounds content i Hlt) as Hb.
      cbv zeta. rewrite unescape_body_acc. cbn [fst snd].
      rewrite IH by lia. rewrite (unescaped_at content i Hlt). cbv zeta.
      now rewrite app_assoc.
    + rewrite skipn_all2 by (unfold size in *; lia). cbn. now rewrite app_nil_r.
Qed.

Lemma unescape_content_unescaped content :
  unescape_content content = Ok (unescaped content).
Proof.
  unfold unescape_content.
  rewrite unescape_loop_unescaped by (unfold size; lia). reflexivity.
Qed.

Lemma unescaped_length : forall n l,
  (length l <= n)%nat -> (length (unescaped l) <= length l)%nat.
Proof.
  induction n as [|n IH]; intros l Hn.
  - destruct l; [cbn; lia | cbn in Hn; lia].
  - destruct l as [|c tl]; [cbn; lia|]. cbn [length] in Hn.
    cbn [unescaped].
    destruct (c =? backslash)%char.
    + destruct tl as [|e tl']; [cbn; lia|]. cbn [length] in Hn.
      assert (H1 : (length (unescaped tl') <= length tl')%nat)
        by (apply IH; lia).
      assert (H2 : (length (unescaped (e :: tl')) <= length (e :: tl'))%nat)
        by (apply IH; cbn [length]; lia).
      repeat match goal with
             | |- context [if ?b then _ else _] => destruct b
             end; cbn [length] in *; lia.
    + assert (H1 : (length (unescaped tl) <= length tl)%nat)
        by (apply IH; lia).
      cbn [length]. lia.
Qed.

Lemma unescaped_no_backslash l :
  ~ In backslash l -> unescaped l = l.
Proof.
  induction l as [|c tl IH]; intros Hn; [reflexivity|].
  cbn [unescaped].
  destruct (Ascii.eqb_spec c backslash) as [->|Hc].
  - exfalso. apply Hn. now left.
  - f_equal. apply IH. intros Hin. apply Hn. now right.
Qed.

(** The unescaping returns for every content; its result is never longer
    than the content, and is the content itself when the content holds no
    backslash. *)
Theorem unescape_content_shrinks content :
  exists out,
    unescape_content content = Ok out /\
    (length out <= length content)%nat /\
    (~ In backslash content -> out = content).
Proof.
  exists (unescaped content). split; [apply unescape_content_unescaped|].
  split.
  - now apply (unescaped_length (length content)).
  - apply unescaped_no_backslash.
Qed.

(** The unescaping undoes the escaping: a text in which newline, tab,
    carriage return, backslash and double quote were written as a backslash
    followed by n, t, r, a backslash and a double quote comes back byte for
    byte. *)
Theorem unescape_content_escaped text :
  unescape_content (escaped text) = Ok text.
Proof.
  rewrite unescape_content_unescaped. f_equal.
  induction text as [|c tl IH]; [reflexivity|].
  unfold escaped in *. cbn [flat_map].
  remember (flat_map escape_char tl) as r eqn:Er. clear Er.
  unfold escape_char.
  destruct (Ascii.eqb_spec c newline) as [->|H1]; [cbn; now rewrite IH|].
  destruct (Ascii.eqb_spec c tab) as [->|H2]; [cbn; now rewrite IH|].
  destruct (Ascii.eqb_spec c carriage_return) as [->|H3];
    [cbn; now rewrite IH|].
  destruct (Ascii.eqb_spec c backslash) as [->|H4]; [cbn; now rewrite IH|].
  destruct (Ascii.eqb_spec c double_quote) as [->|H5]; [cbn; now rewrite IH|].
  cbn [app unescaped].
  destruct (Ascii.eqb_spec c backslash); [contradiction|]. now rewrite IH.
Qed.

(** An escape the loop does not know keeps its backslash, and so does a
    backslash at the very end of the content. *)
Theorem unescape_content_unknown_escape pre c :
  ~ In backslash pre ->
  c <> "n"%char -> c <> "t"%char -> c <> "r"%char ->
  c <> backslash -> c <> double_quote ->
  unescape_content (pre ++ [backslash; c]) = Ok (pre ++ [backslash; c]) /\
  unescape_content (pre ++ [backslash]) = Ok (pre ++ [backslash]).
Proof.
  intros Hpre Hn Ht Hr Hb Hq. rewrite !unescape_content_unescaped.
  induction pre as [|x pre IH].
  - apply Ascii.eqb_neq in Hn, Ht, Hr, Hb, Hq.
    split; [|reflexivity].
    cbn [app unescaped].
    replace (backslash =? backslash)%char with true
      by (symmetry; apply Ascii.eqb_refl).
    rewrite Hn, Ht, Hr, Hb, Hq. reflexivity.
  - assert (Hx : x <> backslash) by (intros ->; apply Hpre; now left).
    assert (Hpre' : ~ In backslash pre) by (intros H; apply Hpre; now right).
    destruct (IH Hpre') as [IH1 IH2]. injection IH1 as IH1. injection IH2 as IH2.
    cbn [app unescaped]. destruct (Ascii.eqb_spec x backslash); [contradiction|].
    now rewrite IH1, IH2.
Qed.

Lemma unescape_content_unknown_escape_witness :
  ~ In backslash (bytes "C:") /\
  unescape_content (bytes "C:" ++ [backslash; "d"%char])
  = Ok (bytes "C:" ++ [backslash; "d"%char]).
Proof.
  assert (Hpre : ~ In backslash (bytes "C:"))
    by (intros [H|[H|[]]]; discriminate).
  split; [exact Hpre|].
  apply (unescape_content_unknown_escape (bytes "C:") "d"%char Hpre);
    discriminate.
Defined.
